(** * Voice transcription service: cancellation and teardown of a session

    A shallow embedding of
    [src/vs/workbench/services/voiceRecognition/electron-sandbox/workbenchVoiceRecognitionService.ts].

    The service is asynchronous, single threaded JavaScript.  Every [await] of
    the source is a suspension point: the code between two suspension points
    runs to completion, and the environment decides what happens next (a
    promise settles, the token source cancels, the worklet posts a message, a
    timer fires).  The embedding is therefore a transition system: a [World]
    holds the cancellation tokens, the sessions started by [transcribe] and
    the pending timers, and [step] runs the piece of source code that an
    [Event] of the environment triggers.  The [await] of line 141 waits for
    the promise of [start], which is an async method itself: when [start]
    ends, its promise settles and the callback of [doTranscribe] is resumed by
    a promise job of its own, so the environment may act between the end of
    [start] and line 143.  The embedding lets any event come in between; what
    is proved of every schedule holds of those an event loop can produce.
    Every object that the service creates or is handed by a promise is
    numbered by the world in creation order. *)

From stdpp Require Import gmap strings list fin_maps.

Open Scope string_scope.
Open Scope list_scope.

(** ** Values posted on the worklet port *)

Inductive MessageData :=
| DString (s : string)
| DNumber (n : Z)
| DBoolean (b : bool)
| DUndefined
| DNull
| DObject.

(** JavaScript's [typeof] on the payloads above. *)
Definition typeof (d : MessageData) : string :=
  match d with
  | DString _ => "string"
  | DNumber _ => "number"
  | DBoolean _ => "boolean"
  | DUndefined => "undefined"
  | DNull => "object"
  | DObject => "object"
  end.

(** ** Identifiers *)

Abbreviation TokenId := nat (only parsing).
Abbreviation SessionId := nat (only parsing).
Abbreviation Track := nat (only parsing).
Abbreviation Subscriber := nat (only parsing).
Abbreviation ObjId := nat (only parsing).

(** The audio and messaging objects that a call of [transcribe] works with. *)
Inductive Resource :=
| OutputEmitter        (* line 83:  new Emitter<string>() *)
| MicrophoneStream     (* line 100: the stream of getUserMedia(...) *)
| AudioContextObject   (* line 114: new AudioContext(...) *)
| SourceNode           (* line 119: audioContext.createMediaStreamSource(...) *)
| WorkletNode          (* line 137: new VoiceTranscriptionWorkletNode(...) *)
| RawConnection.       (* line 53:  the port of createRawConnection() *)

Global Instance Resource_eq_dec : EqDecision Resource.
Proof. solve_decision. Defined.

(** ** Effects on the outside world, in the order a session performs them *)

Inductive Action :=
| ProgressReport (message : string)   (* progress.report({ message }) *)
| GetUserMedia                        (* navigator.mediaDevices.getUserMedia(...) *)
| NewAudioContext                     (* new AudioContext(...) *)
| CreateMediaStreamSource             (* audioContext.createMediaStreamSource(...) *)
| AddModule                           (* audioContext.audioWorklet.addModule(...) *)
| NewWorkletNode                      (* new VoiceTranscriptionWorkletNode(...) *)
| CreateRawConnection                 (* sharedProcessService.createRawConnection() *)
| PostStart                           (* port.postMessage('vscode:startVoiceTranscription', [connection]) *)
| SourceConnect                       (* microphoneSource.connect(voiceTranscriptionTarget) *)
| TrackStop (t : Track)               (* track.stop() *)
| SourceDisconnect                    (* microphoneSource.disconnect() *)
| ContextClose                        (* audioContext.close() *)
| RecordingDoneComplete               (* recordingDone.complete() *)
| PostStop                            (* port.postMessage('vscode:stopVoiceTranscription') *)
| NodeDisconnect.                     (* this.disconnect() of the worklet node *)

Global Instance Action_eq_dec : EqDecision Action.
Proof. solve_decision. Defined.

(** ** The three closures the source hands to [onCancellationRequested] *)

Inductive Callback :=
| DisposeEmitter      (* transcribe:   () => onDidTranscribe.dispose() *)
| Teardown            (* doTranscribe: stop tracks, disconnect, close, complete *)
| StopTranscription.  (* start:        post the stop command, disconnect the node *)

Global Instance Callback_eq_dec : EqDecision Callback.
Proof. solve_decision. Defined.

(** A listener is a closure together with the session whose variables it
    captured. *)
Definition Listener : Type := SessionId * Callback.

(** ** Where the async callback of [doTranscribe] is suspended *)

Inductive Stage := AcquiringMicrophone | BuildingGraph | ConnectingSideChannel.

Global Instance Stage_eq_dec : EqDecision Stage.
Proof. solve_decision. Defined.

Inductive Pc :=
| AwaitMicrophone          (* line 100: await getUserMedia(...) *)
| AwaitModule              (* line 131: await addModule(...) *)
| AwaitConnection          (* line 53 under line 141: await createRawConnection() *)
| StartFulfilled           (* line 141: [start] has returned, the callback is not yet resumed *)
| StartRejected            (* line 141: [start] has thrown, the callback is not yet resumed *)
| Recording                (* line 151: the promise follows recordingDone.p *)
| Stopped                  (* the promise given to withProgress is fulfilled *)
| Rejected (stage : Stage).   (* the promise given to withProgress is rejected *)

Global Instance Pc_eq_dec : EqDecision Pc.
Proof. solve_decision. Defined.

(** Modelled from the spec: the [Emitter] of [vs/base/common/event] is not
    part of the sources.  The spec's output contract is "an event stream of
    string fragments, terminating (no further events) once cancellation is
    requested", obtained by disposing the emitter, which must "stop producing
    after cancellation and release its subscribers".  So an emitter is a
    disposed flag and its subscribers in subscription order; [fire] delivers
    to each subscriber in turn, [dispose] drops the subscribers, and a
    disposed emitter accepts no subscriber. *)
Record Emitter := mkEmitter {
  disposed : bool;
  subscribers : list Subscriber
}.

Definition emitter_new : Emitter := mkEmitter false [].

Definition emitter_fire (e : Emitter) (fragment : string) : list (Subscriber * string) :=
  map (fun l => (l, fragment)) (subscribers e).

Definition emitter_dispose (e : Emitter) : Emitter := mkEmitter true [].

Definition emitter_subscribe (l : Subscriber) (e : Emitter) : Emitter :=
  if disposed e then e else mkEmitter false (subscribers e ++ [l]).

(** Modelled from the spec: the [CancellationToken] of
    [vs/base/common/cancellation] is not part of the sources.  The spec calls
    it an "externally supplied; read-only signal with one transition
    (not-cancelled → cancelled)": a flag and the listeners registered so far.
    Cancelling sets the flag and runs the listeners once, in registration
    order, and forgets them ("fires at most once regardless of how many times
    cancellation is observed").  The spec is silent on a listener that is
    registered when the token is already cancelled; the model follows the
    token of the editor's base library, which does not run such a listener
    inside the registering call but queues it as a timer of the event loop,
    to run in a later turn. *)
Record CancellationToken := mkToken {
  isCancellationRequested : bool;
  listeners : list Listener
}.

Definition token_fresh : CancellationToken := mkToken false [].

(** ** One call of [transcribe] *)

Record Session := mkSession {
  token : TokenId;                 (* the [cancellation] argument *)
  onDidTranscribe : Emitter;       (* line 83 *)
  pc : Pc;
  microphoneDevice : list Track;   (* tracks of the stream of line 100 *)
  recordingDone : bool;            (* line 96: has the deferred promise settled *)
  onmessage : bool;                (* line 45: is the port handler installed *)
  log : list Action;               (* effects so far, oldest first *)
  fired : list string;             (* arguments of onDidTranscribe.fire so far *)
  delivered : list (Subscriber * string);  (* what the subscribers received *)
  resources : list (Resource * ObjId)      (* the objects held, oldest first *)
}.

Definition session_new (tid : TokenId) (emitter : ObjId) : Session :=
  mkSession tid emitter_new AwaitMicrophone [] false false [] [] []
            [(OutputEmitter, emitter)].

Definition set_emitter (e : Emitter) (s : Session) : Session :=
  mkSession (token s) e (pc s) (microphoneDevice s) (recordingDone s)
            (onmessage s) (log s) (fired s) (delivered s) (resources s).

Definition goto (p : Pc) (s : Session) : Session :=
  mkSession (token s) (onDidTranscribe s) p (microphoneDevice s) (recordingDone s)
            (onmessage s) (log s) (fired s) (delivered s) (resources s).

Definition set_microphoneDevice (tracks : list Track) (s : Session) : Session :=
  mkSession (token s) (onDidTranscribe s) (pc s) tracks (recordingDone s)
            (onmessage s) (log s) (fired s) (delivered s) (resources s).

Definition set_recordingDone (s : Session) : Session :=
  mkSession (token s) (onDidTranscribe s) (pc s) (microphoneDevice s) true
            (onmessage s) (log s) (fired s) (delivered s) (resources s).

Definition set_onmessage (s : Session) : Session :=
  mkSession (token s) (onDidTranscribe s) (pc s) (microphoneDevice s) (recordingDone s)
            true (log s) (fired s) (delivered s) (resources s).

Definition perform (a : Action) (s : Session) : Session :=
  mkSession (token s) (onDidTranscribe s) (pc s) (microphoneDevice s) (recordingDone s)
            (onmessage s) (log s ++ [a]) (fired s) (delivered s) (resources s).

Definition perform_all (acts : list Action) (s : Session) : Session :=
  mkSession (token s) (onDidTranscribe s) (pc s) (microphoneDevice s) (recordingDone s)
            (onmessage s) (log s ++ acts) (fired s) (delivered s) (resources s).

(** [onDidTranscribe.fire(fragment)]. *)
Definition fire (fragment : string) (s : Session) : Session :=
  mkSession (token s) (onDidTranscribe s) (pc s) (microphoneDevice s) (recordingDone s)
            (onmessage s) (log s) (fired s ++ [fragment])
            (delivered s ++ emitter_fire (onDidTranscribe s) fragment)
            (resources s).

(** The session keeps a reference to a new object. *)
Definition acquire (kind : Resource) (id : ObjId) (s : Session) : Session :=
  mkSession (token s) (onDidTranscribe s) (pc s) (microphoneDevice s) (recordingDone s)
            (onmessage s) (log s) (fired s) (delivered s)
            (resources s ++ [(kind, id)]).

(** The objects of a session. *)
Definition handles (s : Session) : list ObjId := (resources s).*2.

Definition kinds (s : Session) : list Resource := (resources s).*1.

(** Modelled from the spec: the [DeferredPromise] of [vs/base/common/async]
    is not part of the sources.  The spec lets a session end "when
    cancellation fires or the underlying recording signal completes", and its
    teardown order ends with "signal completion".  So
    [recordingDone.complete()] settles the deferred promise, and with it the
    promise of the async callback when that one already returned
    [recordingDone.p] (line 151).  A promise that was resolved with another
    promise counts as settled as soon as that one is: the promise jobs in
    between run no code of the service. *)
Definition complete_recordingDone (s : Session) : Session :=
  let s := perform RecordingDoneComplete s in
  let s := set_recordingDone s in
  if decide (pc s = Recording) then goto Stopped s else s.

(** The bodies of the three cancellation listeners. *)
Definition run_callback (cb : Callback) (s : Session) : Session :=
  match cb with
  | DisposeEmitter =>
      (* line 84 *)
      set_emitter (emitter_dispose (onDidTranscribe s)) s
  | Teardown =>
      (* lines 122-128 *)
      let s := perform_all (map TrackStop (microphoneDevice s)) s in
      let s := perform SourceDisconnect s in
      let s := perform ContextClose s in
      complete_recordingDone s
  | StopTranscription =>
      (* lines 56-57 *)
      let s := perform PostStop s in
      perform NodeDisconnect s
  end.

(** The port handler installed by [registerListeners] (lines 45-49). *)
Definition port_onmessage (data : MessageData) (s : Session) : Session :=
  if decide (typeof data = "string") then
    match data with
    | DString fragment => fire fragment s
    | _ => s
    end
  else s.

(** ** The world: tokens, sessions, timers, objects *)

Record World := mkWorld {
  tokens : gmap TokenId CancellationToken;
  sessions : list Session;         (* the n-th call of [transcribe] is session n *)
  timers : list Listener;          (* callbacks queued for a later turn *)
  objects : nat                    (* how many objects were created so far *)
}.

Definition world_init : World := mkWorld ∅ [] [] 0.

Definition get_token (tid : TokenId) (w : World) : CancellationToken :=
  default token_fresh (tokens w !! tid).

Definition set_token (tid : TokenId) (t : CancellationToken) (w : World) : World :=
  mkWorld (<[tid := t]> (tokens w)) (sessions w) (timers w) (objects w).

Definition set_timers (ts : list Listener) (w : World) : World :=
  mkWorld (tokens w) (sessions w) ts (objects w).

Definition set_objects (n : nat) (w : World) : World :=
  mkWorld (tokens w) (sessions w) (timers w) n.

(** Run [f] on session [sid]; nothing happens when there is no such session. *)
Definition upd (sid : SessionId) (f : Session -> Session) (w : World) : World :=
  mkWorld (tokens w) (alter f sid (sessions w)) (timers w) (objects w).

(** A new object, referenced by session [sid]. *)
Definition new (sid : SessionId) (kind : Resource) (w : World) : World :=
  set_objects (S (objects w)) (upd sid (acquire kind (objects w)) w).

(** [token.onCancellationRequested(listener)]. *)
Definition onCancellationRequested (tid : TokenId) (l : Listener) (w : World) : World :=
  let t := get_token tid w in
  if isCancellationRequested t then set_timers (timers w ++ [l]) w
  else set_token tid (mkToken false (listeners t ++ [l])) w.

Definition invoke (w : World) (l : Listener) : World :=
  upd l.1 (run_callback l.2) w.

(** [cancel()] of the token source: a one-shot transition. *)
Definition cancel (tid : TokenId) (w : World) : World :=
  let t := get_token tid w in
  if isCancellationRequested t then w
  else foldl invoke (set_token tid (mkToken true []) w) (listeners t).

Definition cancelled (sid : SessionId) (w : World) : bool :=
  match sessions w !! sid with
  | Some s => isCancellationRequested (get_token (token s) w)
  | None => false
  end.

(** ** [transcribe] and [doTranscribe] *)

(** A synchronous call either returns or throws. *)
Inductive Completion (A : Type) :=
| Normal (a : A)
| Throw.
Arguments Normal {A} a.
Arguments Throw {A}.

(** [navigator.mediaDevices.getUserMedia(...)], line 100: the call returns a
    promise, or throws in place; which of the two is up to the environment. *)
Definition getUserMedia (throws : bool) (s : Session) : Completion unit * Session :=
  let s := perform GetUserMedia s in
  if throws then (Throw, s) else (Normal tt, s).

(** [doTranscribe], lines 96-108: the body of the callback up to its first
    [await], as a plain piece of code.  It completes with the point at which
    it is suspended, or abruptly. *)
Definition callback_body (getUserMedia_throws : bool) (s : Session)
    : Completion Pc * Session :=
  let s := perform (ProgressReport "Getting microphone ready...") s in
  match getUserMedia getUserMedia_throws s with
  | (Normal _, s) => (Normal AwaitMicrophone, s)
  | (Throw, s) => (Throw, s)
  end.

(** The call of an [async] function (line 95): the body runs up to its first
    [await]; an exception thrown by the body rejects the promise that the
    call returns, and the call itself returns that promise.  The body that
    runs inside the call is the one before the first [await], so such an
    exception is a failure of the first stage. *)
Definition async (body : Session -> Completion Pc * Session) (s : Session)
    : Completion unit * Session :=
  match body s with
  | (Normal p, s) => (Normal tt, goto p s)
  | (Throw, s) => (Normal tt, goto (Rejected AcquiringMicrophone) s)
  end.

(** The session after the call of the async callback. *)
Definition callback_begin (getUserMedia_throws : bool) (s : Session) : Session :=
  (async (callback_body getUserMedia_throws) s).2.

(** Modelled from the spec: the progress service is not part of the sources.
    It is the "hosting UI-progress wrapper" to which setup failures propagate:
    it calls the callback and keeps the promise the callback returns.  Like
    any caller, it is left abruptly when the callback throws in place. *)
Definition withProgress (sid : SessionId)
    (callback : Session -> Completion unit * Session)
    (w : World) : Completion unit * World :=
  match sessions w !! sid with
  | Some s =>
      match callback s with
      | (Normal _, s') => (Normal tt, upd sid (fun _ => s') w)
      | (Throw, s') => (Throw, upd sid (fun _ => s') w)
      end
  | None => (Normal tt, w)
  end.

(** Lines 91-153.  The promise of [withProgress] is dropped. *)
Definition doTranscribe (sid : SessionId) (getUserMedia_throws : bool)
    (w : World) : Completion unit * World :=
  withProgress sid (async (callback_body getUserMedia_throws)) w.

(** Lines 82-89.  The result is the event of the new session's emitter,
    named by the session. *)
Definition transcribe (tid : TokenId) (getUserMedia_throws : bool)
    (w : World) : Completion SessionId * World :=
  let sid := length (sessions w) in
  let w := mkWorld (tokens w) (sessions w ++ [session_new tid (objects w)])
                   (timers w) (S (objects w)) in
  let w := onCancellationRequested tid (sid, DisposeEmitter) w in
  match doTranscribe sid getUserMedia_throws w with
  | (Normal _, w) => (Normal sid, w)
  | (Throw, w) => (Throw, w)
  end.

(** Lines 110-131: what runs when the microphone promise is fulfilled, with a
    stream of its own. *)
Definition after_getUserMedia (sid : SessionId) (tid : TokenId)
    (tracks : list Track) (w : World) : World :=
  let w := new sid MicrophoneStream w in
  let w := upd sid (set_microphoneDevice tracks) w in
  if cancelled sid w then upd sid (goto Stopped) w
  else
    let w := new sid AudioContextObject w in
    let w := upd sid (perform NewAudioContext) w in
    let w := new sid SourceNode w in
    let w := upd sid (perform CreateMediaStreamSource) w in
    let w := onCancellationRequested tid (sid, Teardown) w in
    let w := upd sid (perform AddModule) w in
    upd sid (goto AwaitModule) w.

(** [VoiceTranscriptionWorkletNode.registerListeners], lines 44-50: the port
    handler is installed. *)
Definition registerListeners (s : Session) : Session := set_onmessage s.

(** The constructor of [VoiceTranscriptionWorkletNode], lines 33-42. *)
Definition new_VoiceTranscriptionWorkletNode (sid : SessionId) (w : World) : World :=
  let w := new sid WorkletNode w in
  let w := upd sid (perform NewWorkletNode) w in
  upd sid registerListeners w.

(** [VoiceTranscriptionWorkletNode.start], line 53: up to its [await]. *)
Definition start_begin (sid : SessionId) (w : World) : World :=
  let w := upd sid (perform CreateRawConnection) w in
  upd sid (goto AwaitConnection) w.

(** [VoiceTranscriptionWorkletNode.start], lines 53-60: what runs when the
    connection promise is fulfilled, from the [await] of [start] to its end.
    There is no look at the flag.  The promise of [start] is then fulfilled,
    and the callback of [doTranscribe] waits for its own promise job. *)
Definition start_resume (sid : SessionId) (tid : TokenId) (w : World) : World :=
  let w := new sid RawConnection w in
  let w := onCancellationRequested tid (sid, StopTranscription) w in
  let w := upd sid (perform PostStart) w in
  upd sid (goto StartFulfilled) w.

(** Lines 133-141: what runs when the module promise is fulfilled. *)
Definition after_addModule (sid : SessionId) (w : World) : World :=
  if cancelled sid w then upd sid (goto Stopped) w
  else
    let w := new_VoiceTranscriptionWorkletNode sid w in
    start_begin sid w.

(** Lines 143-151: the promise job that resumes the callback of
    [doTranscribe] once the promise of [start] is fulfilled. *)
Definition after_start (sid : SessionId) (w : World) : World :=
  if cancelled sid w then upd sid (goto Stopped) w
  else
    let w := upd sid (perform SourceConnect) w in
    let w := upd sid (perform (ProgressReport "Recording from microphone...")) w in
    upd sid (fun s => if recordingDone s then goto Stopped s else goto Recording s) w.

(** ** Events of the environment and the transition function *)

Inductive Event :=
| Transcribe (tid : TokenId) (getUserMedia_throws : bool)
                                         (* a caller calls transcribe(token) *)
| Cancel (tid : TokenId)                 (* the token source cancels *)
| Subscribe (sid : SessionId) (l : Subscriber)
                                         (* a consumer subscribes to the event *)
| MicrophoneResolved (sid : SessionId) (tracks : list Track)
                                         (* line 100 resumes with a stream *)
| MicrophoneRejected (sid : SessionId)   (* line 100 resumes by throwing *)
| ModuleLoaded (sid : SessionId)         (* line 131 resumes *)
| ModuleRejected (sid : SessionId)       (* line 131 resumes by throwing *)
| ConnectionOpened (sid : SessionId)     (* line 53 resumes with a connection *)
| ConnectionRejected (sid : SessionId)   (* line 53 resumes by throwing *)
| StartReturned (sid : SessionId)        (* line 141 resumes, either way *)
| PortMessage (sid : SessionId) (data : MessageData)
                                         (* the worklet posts on the port *)
| Timeout.                               (* the oldest queued callback runs *)

(** Resume session [sid] if it is suspended at [at_pc]. *)
Definition resume (sid : SessionId) (at_pc : Pc)
    (k : Session -> World -> World) (w : World) : World :=
  match sessions w !! sid with
  | Some s => if decide (pc s = at_pc) then k s w else w
  | None => w
  end.

Definition step (w : World) (e : Event) : World :=
  match e with
  | Transcribe tid throws => (transcribe tid throws w).2
  | Cancel tid => cancel tid w
  | Subscribe sid l =>
      upd sid (fun s => set_emitter (emitter_subscribe l (onDidTranscribe s)) s) w
  | MicrophoneResolved sid tracks =>
      resume sid AwaitMicrophone (fun s => after_getUserMedia sid (token s) tracks) w
  | MicrophoneRejected sid =>
      resume sid AwaitMicrophone
             (fun _ => upd sid (goto (Rejected AcquiringMicrophone))) w
  | ModuleLoaded sid =>
      resume sid AwaitModule (fun _ => after_addModule sid) w
  | ModuleRejected sid =>
      resume sid AwaitModule (fun _ => upd sid (goto (Rejected BuildingGraph))) w
  | ConnectionOpened sid =>
      resume sid AwaitConnection (fun s => start_resume sid (token s)) w
  | ConnectionRejected sid =>
      (* [start] throws at line 53: its promise is rejected *)
      resume sid AwaitConnection (fun _ => upd sid (goto StartRejected)) w
  | StartReturned sid =>
      (* the callback of [doTranscribe] resumes from line 141 *)
      match sessions w !! sid with
      | Some s =>
          match pc s with
          | StartFulfilled => after_start sid w
          | StartRejected => upd sid (goto (Rejected ConnectingSideChannel)) w
          | _ => w
          end
      | None => w
      end
  | PortMessage sid data =>
      upd sid (fun s => if onmessage s then port_onmessage data s else s) w
  | Timeout =>
      match timers w with
      | [] => w
      | l :: ts => invoke (set_timers ts w) l
      end
  end.

Definition run_from (w : World) (evs : list Event) : World := foldl step w evs.

Definition run (evs : list Event) : World := run_from world_init evs.

(** The session record of [sid] after a schedule, if [transcribe] was called
    that often. *)
Definition session_of (sid : SessionId) (w : World) : option Session :=
  sessions w !! sid.

(** ** Vocabulary of the statements *)

(** The callbacks of session [sid] among the listeners [ls], in order. *)
Definition own (sid : SessionId) (ls : list Listener) : list Callback :=
  (filter (fun l : Listener => l.1 = sid) ls).*2.

(** The effects of the setup sequence, as far as it can get. *)
Definition setup_microphone : list Action :=
  [ProgressReport "Getting microphone ready..."; GetUserMedia].

Definition setup_graph : list Action :=
  setup_microphone ++ [NewAudioContext; CreateMediaStreamSource; AddModule].

Definition setup_node : list Action :=
  setup_graph ++ [NewWorkletNode; CreateRawConnection].

Definition setup_recording : list Action :=
  setup_node ++ [PostStart; SourceConnect; ProgressReport "Recording from microphone..."].

(** One pass of the teardown listener over a stream with tracks [tracks]. *)
Definition teardown_block (tracks : list Track) : list Action :=
  map TrackStop tracks ++ [SourceDisconnect; ContextClose; RecordingDoneComplete].

(** One pass of the listener of [start]. *)
Definition stop_block : list Action := [PostStop; NodeDisconnect].

(** Actions that release something: those of the two blocks above. *)
Definition is_release (a : Action) : bool :=
  match a with
  | TrackStop _ | SourceDisconnect | ContextClose | RecordingDoneComplete
  | PostStop | NodeDisconnect => true
  | _ => false
  end.

Definition releases (l : list Action) : list Action :=
  List.filter is_release l.

(** Actions that build the audio graph or open the side channel. *)
Definition is_construction (a : Action) : bool :=
  match a with
  | NewAudioContext | CreateMediaStreamSource | AddModule
  | NewWorkletNode | CreateRawConnection | PostStart | SourceConnect => true
  | _ => false
  end.

Definition occurrences (a : Action) (l : list Action) : nat :=
  length (List.filter (fun b => bool_decide (b = a)) l).

(** The string payloads of a run of port messages, in arrival order. *)
Definition fragments (msgs : list MessageData) : list string :=
  flat_map (fun d => match d with DString f => [f] | _ => [] end) msgs.

(** Deliveries of a run of fragments to the subscribers [subs]. *)
Definition deliveries (subs : list Subscriber) (frs : list string)
    : list (Subscriber * string) :=
  flat_map (fun f => map (fun l => (l, f)) subs) frs.

(** ** Reachable sessions

    A session, the flag of its token and its pending listeners are always in
    one of thirteen phases.  The first five have a token that is not
    cancelled; the others are what cancellation makes of them. *)

Inductive Phase :=
| Acquiring            (* waiting for the microphone, or rejected there *)
| Building             (* waiting for the module, or rejected there *)
| Connecting           (* waiting for the raw connection, or rejected there *)
| Starting             (* [start] has returned, line 143 is still to come *)
| Live                 (* recording *)
| Precancelled         (* token cancelled before [transcribe]; dispose queued *)
| Aborted              (* cancelled before the microphone promise settled *)
| TornDownBuilding     (* cancelled while the module was loading *)
| TornDownConnecting   (* cancelled while the raw connection was opening *)
| StopPending          (* as before, [start] has resumed; stop queued *)
| StopSent             (* as before, the queued stop has run *)
| TornDownStarting     (* cancelled between the end of [start] and line 143 *)
| TornDownLive.        (* cancelled while recording *)

Definition phase_cancelled (ph : Phase) : bool :=
  match ph with
  | Acquiring | Building | Connecting | Starting | Live => false
  | _ => true
  end.

Definition phase_listeners (ph : Phase) : list Callback :=
  match ph with
  | Acquiring => [DisposeEmitter]
  | Building | Connecting => [DisposeEmitter; Teardown]
  | Starting | Live => [DisposeEmitter; Teardown; StopTranscription]
  | _ => []
  end.

Definition phase_timers (ph : Phase) : list Callback :=
  match ph with
  | Precancelled => [DisposeEmitter]
  | StopPending => [StopTranscription]
  | _ => []
  end.

Definition phase_disposed (ph : Phase) : bool :=
  match ph with
  | Acquiring | Building | Connecting | Starting | Live | Precancelled => false
  | _ => true
  end.

Definition phase_pc (ph : Phase) (p : Pc) : bool :=
  match ph, p with
  | Acquiring, (AwaitMicrophone | Rejected AcquiringMicrophone) => true
  | Building, (AwaitModule | Rejected BuildingGraph) => true
  | Connecting,
    (AwaitConnection | StartRejected | Rejected ConnectingSideChannel) => true
  | Starting, StartFulfilled => true
  | Live, Recording => true
  | (Precancelled | Aborted),
    (AwaitMicrophone | Rejected AcquiringMicrophone | Stopped) => true
  | TornDownBuilding, (AwaitModule | Rejected BuildingGraph | Stopped) => true
  | TornDownConnecting,
    (AwaitConnection | StartRejected | Rejected ConnectingSideChannel) => true
  | (StopPending | StopSent | TornDownStarting), (StartFulfilled | Stopped) => true
  | TornDownLive, Stopped => true
  | _, _ => false
  end.

Definition phase_recordingDone (ph : Phase) : bool :=
  match ph with
  | TornDownBuilding | TornDownConnecting | StopPending | StopSent
  | TornDownStarting | TornDownLive => true
  | _ => false
  end.

Definition phase_onmessage (ph : Phase) : bool :=
  match ph with
  | Connecting | Starting | Live | TornDownConnecting | StopPending | StopSent
  | TornDownStarting | TornDownLive => true
  | _ => false
  end.

Definition phase_log (ph : Phase) (tracks : list Track) : list Action :=
  match ph with
  | Acquiring | Precancelled | Aborted => setup_microphone
  | Building => setup_graph
  | Connecting => setup_node
  | Starting => setup_node ++ [PostStart]
  | Live => setup_recording
  | TornDownBuilding => setup_graph ++ teardown_block tracks
  | TornDownConnecting => setup_node ++ teardown_block tracks
  | StopPending => setup_node ++ teardown_block tracks ++ [PostStart]
  | StopSent => setup_node ++ teardown_block tracks ++ [PostStart] ++ stop_block
  | TornDownStarting =>
      setup_node ++ [PostStart] ++ teardown_block tracks ++ stop_block
  | TornDownLive => setup_recording ++ teardown_block tracks ++ stop_block
  end.

(** The kinds of the objects that a session holds, in creation order. *)
Definition phase_kinds (ph : Phase) (p : Pc) : list Resource :=
  match ph with
  | Acquiring => [OutputEmitter]
  | Precancelled | Aborted =>
      match p with
      | Stopped => [OutputEmitter; MicrophoneStream]
      | _ => [OutputEmitter]
      end
  | Building | TornDownBuilding =>
      [OutputEmitter; MicrophoneStream; AudioContextObject; SourceNode]
  | Connecting | TornDownConnecting =>
      [OutputEmitter; MicrophoneStream; AudioContextObject; SourceNode;
       WorkletNode]
  | Starting | Live | StopPending | StopSent | TornDownStarting | TornDownLive =>
      [OutputEmitter; MicrophoneStream; AudioContextObject; SourceNode;
       WorkletNode; RawConnection]
  end.

Record in_phase (ph : Phase) (c : bool) (ls ts : list Callback) (s : Session)
    : Prop := mkInPhase {
  ph_cancelled : c = phase_cancelled ph;
  ph_listeners : ls = phase_listeners ph;
  ph_timers : ts = phase_timers ph;
  ph_disposed : disposed (onDidTranscribe s) = phase_disposed ph;
  ph_pc : phase_pc ph (pc s) = true;
  ph_recordingDone : recordingDone s = phase_recordingDone ph;
  ph_onmessage : onmessage s = phase_onmessage ph;
  ph_log : log s = phase_log ph (microphoneDevice s);
  ph_subscribers : disposed (onDidTranscribe s) = true ->
                   subscribers (onDidTranscribe s) = [];
  ph_fired : onmessage s = false -> fired s = [] /\ delivered s = [];
  ph_kinds : kinds s = phase_kinds ph (pc s)
}.

(** The invariant of the transition system. *)
Record wf (w : World) : Prop := mkWf {
  (* every session is in a phase *)
  wf_phase : forall sid s, sessions w !! sid = Some s ->
    exists ph, in_phase ph
      (isCancellationRequested (get_token (token s) w))
      (own sid (listeners (get_token (token s) w)))
      (own sid (timers w)) s;
  (* a session listens to no token but its own *)
  wf_foreign : forall sid tid,
    (forall s, sessions w !! sid = Some s -> token s <> tid) ->
    own sid (listeners (get_token tid w)) = [];
  (* no timer belongs to a session that does not exist *)
  wf_fresh : forall sid, sessions w !! sid = None -> own sid (timers w) = [];
  (* a cancelled token has run and forgotten its listeners *)
  wf_forgotten : forall tid,
    isCancellationRequested (get_token tid w) = true ->
    listeners (get_token tid w) = []
}.

(** The phase of a session in a world. *)
Definition phase_of (w : World) (sid : SessionId) (s : Session) (ph : Phase) : Prop :=
  in_phase ph
    (isCancellationRequested (get_token (token s) w))
    (own sid (listeners (get_token (token s) w)))
    (own sid (timers w)) s.

(** [local sid w w']: going from [w] to [w'] touched nothing but session
    [sid], the listeners it owns and the timers it owns. *)
Record local (sid0 : SessionId) (w w' : World) : Prop := mkLocal {
  loc_sessions : forall sid, sid <> sid0 ->
    sessions w' !! sid = sessions w !! sid;
  loc_flag : forall tid,
    isCancellationRequested (get_token tid w')
    = isCancellationRequested (get_token tid w);
  loc_listeners : forall tid sid, sid <> sid0 ->
    own sid (listeners (get_token tid w'))
    = own sid (listeners (get_token tid w));
  loc_timers : forall sid, sid <> sid0 ->
    own sid (timers w') = own sid (timers w);
  loc_forgotten : forall tid,
    isCancellationRequested (get_token tid w) = true ->
    listeners (get_token tid w') = listeners (get_token tid w)
}.

(** The session side of the continuations, composed.  The objects are
    numbered from [n] on. *)

(** Lines 100-112 with the flag set. *)
Definition abort_microphone (tracks : list Track) (n : ObjId) (s : Session)
    : Session :=
  goto Stopped (set_microphoneDevice tracks (acquire MicrophoneStream n s)).

(** Lines 100-131 with the flag clear. *)
Definition build_graph (tracks : list Track) (n : ObjId) (s : Session) : Session :=
  goto AwaitModule
    (perform AddModule
       (perform CreateMediaStreamSource
          (acquire SourceNode (S (S n))
             (perform NewAudioContext
                (acquire AudioContextObject (S n)
                   (set_microphoneDevice tracks
                      (acquire MicrophoneStream n s))))))).

(** Lines 137-141 and 53 with the flag clear. *)
Definition build_node (n : ObjId) (s : Session) : Session :=
  goto AwaitConnection
    (perform CreateRawConnection
       (registerListeners (perform NewWorkletNode (acquire WorkletNode n s)))).

(** Lines 53-60. *)
Definition open_connection (n : ObjId) (s : Session) : Session :=
  goto StartFulfilled (perform PostStart (acquire RawConnection n s)).

(** Lines 147-151. *)
Definition begin_recording (s : Session) : Session :=
  (fun s => if recordingDone s then goto Stopped s else goto Recording s)
    (perform (ProgressReport "Recording from microphone...")
       (perform SourceConnect s)).

(** ** The transition system seen from one session

    What a session can observe of the world: the flag of its token, its own
    listeners on that token, its own queued callbacks, and the number of the
    next object. *)
Record View := mkView {
  v_cancelled : bool;
  v_listeners : list Callback;
  v_timers : list Callback;
  v_objects : nat
}.

Definition view (w : World) (sid : SessionId) (s : Session) : View :=
  mkView (isCancellationRequested (get_token (token s) w))
         (own sid (listeners (get_token (token s) w)))
         (own sid (timers w))
         (objects w).

(** One step of the world, projected on a session. *)
Inductive session_step : View -> Session -> View -> Session -> Prop :=
| ss_none c ls ts n n' s :
    n <= n' ->
    session_step (mkView c ls ts n) s (mkView c ls ts n') s
| ss_subscribe v s l :
    session_step v s v (set_emitter (emitter_subscribe l (onDidTranscribe s)) s)
| ss_message v s data :
    session_step v s v (if onmessage s then port_onmessage data s else s)
| ss_cancel ls ts n s :
    session_step (mkView false ls ts n) s
                 (mkView true [] ts n) (foldl (fun s cb => run_callback cb s) s ls)
| ss_timeout c ls cb ts n s :
    session_step (mkView c ls (cb :: ts) n) s
                 (mkView c ls ts n) (run_callback cb s)
| ss_microphone_cancelled ls ts n s tracks :
    pc s = AwaitMicrophone ->
    session_step (mkView true ls ts n) s
                 (mkView true ls ts (S n)) (abort_microphone tracks n s)
| ss_microphone ls ts n s tracks :
    pc s = AwaitMicrophone ->
    session_step (mkView false ls ts n) s
                 (mkView false (ls ++ [Teardown]) ts (S (S (S n))))
                 (build_graph tracks n s)
| ss_microphone_rejected v s :
    pc s = AwaitMicrophone ->
    session_step v s v (goto (Rejected AcquiringMicrophone) s)
| ss_module_cancelled ls ts n s :
    pc s = AwaitModule ->
    session_step (mkView true ls ts n) s (mkView true ls ts n) (goto Stopped s)
| ss_module ls ts n s :
    pc s = AwaitModule ->
    session_step (mkView false ls ts n) s (mkView false ls ts (S n)) (build_node n s)
| ss_module_rejected v s :
    pc s = AwaitModule ->
    session_step v s v (goto (Rejected BuildingGraph) s)
| ss_connection_cancelled ls ts n s :
    pc s = AwaitConnection ->
    session_step (mkView true ls ts n) s
                 (mkView true ls (ts ++ [StopTranscription]) (S n))
                 (open_connection n s)
| ss_connection ls ts n s :
    pc s = AwaitConnection ->
    session_step (mkView false ls ts n) s
                 (mkView false (ls ++ [StopTranscription]) ts (S n))
                 (open_connection n s)
| ss_connection_rejected v s :
    pc s = AwaitConnection ->
    session_step v s v (goto StartRejected s)
| ss_start_cancelled ls ts n s :
    pc s = StartFulfilled ->
    session_step (mkView true ls ts n) s (mkView true ls ts n) (goto Stopped s)
| ss_start ls ts n s :
    pc s = StartFulfilled ->
    session_step (mkView false ls ts n) s (mkView false ls ts n) (begin_recording s)
| ss_start_rejected v s :
    pc s = StartRejected ->
    session_step v s v (goto (Rejected ConnectingSideChannel) s).

(** The session an event of the environment runs code of, if it is one. *)
Definition actor (w : World) (e : Event) : option SessionId :=
  match e with
  | Transcribe _ _ => Some (length (sessions w))
  | Cancel _ => None
  | Subscribe sid _ | MicrophoneResolved sid _ | MicrophoneRejected sid
  | ModuleLoaded sid | ModuleRejected sid | ConnectionOpened sid
  | ConnectionRejected sid | StartReturned sid | PortMessage sid _ => Some sid
  | Timeout => match timers w with [] => None | l :: _ => Some l.1 end
  end.

(** Does the event deliver a port message to session [sid]? *)
Definition speaks (sid : SessionId) (e : Event) : bool :=
  match e with
  | PortMessage sid' _ => bool_decide (sid' = sid)
  | _ => false
  end.

(** A session whose token was cancelled before its microphone promise was
    looked at: nothing was built and nothing was relayed. *)
Definition never_built (v : View) (s : Session) : Prop :=
  v_cancelled v = true /\ log s = setup_microphone
  /\ fired s = [] /\ delivered s = [].

(** A session whose token is cancelled and whose subscribers have received
    exactly [ds]. *)
Definition silenced (ds : list (Subscriber * string)) (v : View) (s : Session) : Prop :=
  v_cancelled v = true /\ delivered s = ds.

(** A session whose setup was rejected at [stage]. *)
Definition rejected_at (stage : Stage) (v : View) (s : Session) : Prop :=
  pc s = Rejected stage.

(** The teardown actions proper: stop the tracks, disconnect the source,
    close the context. *)
Definition is_teardown (a : Action) : bool :=
  match a with
  | TrackStop _ | SourceDisconnect | ContextClose => true
  | _ => false
  end.

Definition teardowns (l : list Action) : list Action :=
  List.filter is_teardown l.

Definition teardown_actions (tracks : list Track) : list Action :=
  map TrackStop tracks ++ [SourceDisconnect; ContextClose].







(** The objects of the sessions: every object a session holds was created,
    no object is held by two sessions, and none is held twice. *)
Record heap_ok (w : World) : Prop := mkHeapOk {
  heap_bound : forall sid s id,
    sessions w !! sid = Some s -> id ∈ handles s -> id < objects w;
  heap_owner : forall a b sa sb id,
    sessions w !! a = Some sa -> sessions w !! b = Some sb ->
    id ∈ handles sa -> id ∈ handles sb -> a = b;
  heap_nodup : forall sid s, sessions w !! sid = Some s -> NoDup (handles s)
}.

(** The six objects of a complete session, in creation order. *)
Definition all_resources : list Resource :=
  [OutputEmitter; MicrophoneStream; AudioContextObject; SourceNode;
   WorkletNode; RawConnection].

(** The tracks of the stream that a session holds.  A track is a part of its
    stream: it is named by the stream and by its label there. *)
Definition tracks_of (s : Session) : list (ObjId * Track) :=
  flat_map (fun r : Resource * ObjId =>
              if decide (r.1 = MicrophoneStream)
              then map (pair r.2) (microphoneDevice s) else [])
           (resources s).

(** A session holds objects of its own making: the emitter from the start,
    then the stream, the context, the source, the node and the connection as
    the setup gets to them, each once. *)
Definition holds_own_objects (s : Session) : Prop :=
  [OutputEmitter] `prefix_of` kinds s
  /\ kinds s `prefix_of` all_resources
  /\ (NewAudioContext ∈ log s ->
      MicrophoneStream ∈ kinds s /\ AudioContextObject ∈ kinds s)
  /\ (CreateMediaStreamSource ∈ log s -> SourceNode ∈ kinds s)
  /\ (NewWorkletNode ∈ log s -> WorkletNode ∈ kinds s)
  /\ (PostStart ∈ log s -> RawConnection ∈ kinds s)
  /\ (pc s = Recording -> kinds s = all_resources).

(** ** Vocabulary of the further properties *)

(** What a log holds besides releases: the progress reports and the steps of
    the setup. *)
Definition setups (l : list Action) : list Action :=
  List.filter (fun a => negb (is_release a)) l.

(** A session that has stopped, with the setup steps [l] in its log. *)
Definition stopped_with (l : list Action) (v : View) (s : Session) : Prop :=
  pc s = Stopped /\ setups (log s) = l.

(** Has the promise of the callback settled? *)
Definition is_final (p : Pc) : bool :=
  match p with
  | Stopped | Rejected _ => true
  | _ => false
  end.

(** A session that is over: its token is cancelled, none of its callbacks is
    queued, its promise has settled as [p], and its log is [l]. *)
Definition at_rest (p : Pc) (l : list Action) (v : View) (s : Session) : Prop :=
  v_cancelled v = true /\ v_timers v = [] /\ pc s = p /\ log s = l.

(** * Properties *)

(** ** Listener lists *)

Lemma own_nil sid : own sid [] = [].
Proof. reflexivity. Qed.

Lemma own_app sid l1 l2 : own sid (l1 ++ l2) = own sid l1 ++ own sid l2.
Proof. unfold own. by rewrite filter_app, fmap_app. Qed.

Lemma own_cons_eq sid cb ls : own sid ((sid, cb) :: ls) = cb :: own sid ls.
Proof. unfold own. by rewrite filter_cons_True. Qed.

Lemma own_cons_ne sid sid' cb ls :
  sid' <> sid -> own sid ((sid', cb) :: ls) = own sid ls.
Proof. intros Hne. unfold own. by rewrite filter_cons_False. Qed.

Lemma own_snoc_eq sid cb ls : own sid (ls ++ [(sid, cb)]) = own sid ls ++ [cb].
Proof. by rewrite own_app, own_cons_eq. Qed.

Lemma own_snoc_ne sid sid' cb ls :
  sid' <> sid -> own sid (ls ++ [(sid', cb)]) = own sid ls.
Proof. intros Hne. by rewrite own_app, own_cons_ne, own_nil, app_nil_r. Qed.

(** ** Tokens and sessions under the primitive updates *)

Lemma get_token_set_eq tid t w : get_token tid (set_token tid t w) = t.
Proof. unfold get_token, set_token. simpl. by rewrite lookup_insert_eq. Qed.

Lemma get_token_set_ne tid tid' t w :
  tid <> tid' -> get_token tid' (set_token tid t w) = get_token tid' w.
Proof. intros Hne. unfold get_token, set_token. simpl. by rewrite lookup_insert_ne. Qed.

Lemma get_token_init tid : get_token tid world_init = token_fresh.
Proof. reflexivity. Qed.

Lemma sessions_upd_eq sid f w :
  sessions (upd sid f w) !! sid = f <$> sessions w !! sid.
Proof. apply list_lookup_alter_eq. Qed.

Lemma sessions_upd_ne sid sid' f w :
  sid <> sid' -> sessions (upd sid f w) !! sid' = sessions w !! sid'.
Proof. intros Hne. by apply list_lookup_alter_ne. Qed.

Lemma tokens_invokes ls w : tokens (foldl invoke w ls) = tokens w.
Proof. revert w. induction ls as [|l ls IH]; intros w; [done|]. simpl. by rewrite IH. Qed.

Lemma timers_invokes ls w : timers (foldl invoke w ls) = timers w.
Proof. revert w. induction ls as [|l ls IH]; intros w; [done|]. simpl. by rewrite IH. Qed.

Lemma get_token_invokes tid ls w :
  get_token tid (foldl invoke w ls) = get_token tid w.
Proof. unfold get_token. by rewrite tokens_invokes. Qed.

(** Running listeners changes a session by the callbacks it owns, in order. *)
Lemma sessions_invokes ls w sid :
  sessions (foldl invoke w ls) !! sid
  = (fun s => foldl (fun s cb => run_callback cb s) s (own sid ls))
      <$> sessions w !! sid.
Proof.
  revert w. induction ls as [|[sid' cb] ls IH]; intros w.
  - simpl. by destruct (_ !! _).
  - simpl. rewrite IH. unfold invoke. simpl.
    destruct (decide (sid' = sid)) as [->|Hne].
    + rewrite own_cons_eq, list_lookup_alter_eq. simpl.
      by destruct (_ !! _).
    + by rewrite own_cons_ne, list_lookup_alter_ne.
Qed.

Lemma token_run_callback cb s : token (run_callback cb s) = token s.
Proof.
  destruct cb; simpl; try done.
  unfold complete_recordingDone. by case_decide.
Qed.

Lemma token_run_callbacks cbs s :
  token (foldl (fun s cb => run_callback cb s) s cbs) = token s.
Proof.
  revert s. induction cbs as [|cb cbs IH]; intros s; [done|].
  simpl. by rewrite IH, token_run_callback.
Qed.

(** ** Changes that are local to one session *)

Lemma local_refl sid w : local sid w w.
Proof. by constructor. Qed.

Lemma local_trans sid w1 w2 w3 : local sid w1 w2 -> local sid w2 w3 -> local sid w1 w3.
Proof.
  intros [A1 B1 C1 D1 E1] [A2 B2 C2 D2 E2]. constructor.
  - intros s Hs. by rewrite A2, A1.
  - intros t. by rewrite B2, B1.
  - intros t s Hs. by rewrite C2, C1.
  - intros s Hs. by rewrite D2, D1.
  - intros t Ht. rewrite E2, E1; [done..|]. by rewrite B1.
Qed.

Lemma local_upd sid f w : local sid w (upd sid f w).
Proof.
  constructor; try done.
  intros s Hs. by apply sessions_upd_ne.
Qed.

Lemma local_onCancellationRequested sid tid cb w :
  local sid w (onCancellationRequested tid (sid, cb) w).
Proof.
  unfold onCancellationRequested.
  destruct (isCancellationRequested (get_token tid w)) eqn:Hc.
  - constructor; try done.
    intros s Hs. simpl. by rewrite own_snoc_ne.
  - constructor; try done.
    + intros t. destruct (decide (tid = t)) as [<-|Hne].
      * by rewrite get_token_set_eq, Hc.
      * by rewrite get_token_set_ne.
    + intros t s Hs. destruct (decide (tid = t)) as [<-|Hne].
      * rewrite get_token_set_eq. simpl. by rewrite own_snoc_ne.
      * by rewrite get_token_set_ne.
    + intros t Ht. destruct (decide (tid = t)) as [<-|Hne].
      * congruence.
      * by rewrite get_token_set_ne.
Qed.

Lemma local_set_objects sid n w : local sid w (set_objects n w).
Proof. by constructor. Qed.

Lemma wf_set_objects n w : wf w -> wf (set_objects n w).
Proof. intros [P F N G]. by constructor. Qed.

Lemma objects_upd sid f w : objects (upd sid f w) = objects w.
Proof. reflexivity. Qed.

Lemma local_new sid kind w : local sid w (new sid kind w).
Proof.
  unfold new. eapply local_trans; [apply local_upd|apply local_set_objects].
Qed.

Lemma local_pop sid cb ts w :
  timers w = (sid, cb) :: ts -> local sid w (set_timers ts w).
Proof.
  intros Ht. constructor; try done.
  intros s Hs. simpl. by rewrite Ht, own_cons_ne.
Qed.

Lemma local_push tid n w :
  local (length (sessions w)) w
        (mkWorld (tokens w) (sessions w ++ [session_new tid (objects w)])
                 (timers w) n).
Proof.
  constructor; try done.
  intros s Hs. simpl.
  destruct (decide (s < length (sessions w))).
  - by rewrite lookup_app_l.
  - rewrite lookup_app_r by lia.
    rewrite (proj2 (lookup_ge_None (sessions w) s)) by lia.
    destruct (s - length (sessions w)) as [|k] eqn:E; [lia|done].
Qed.

(** A local change keeps the invariant when the touched session is again in
    a phase. *)
Lemma wf_local sid0 w w' :
  wf w -> local sid0 w w' ->
  (forall s, sessions w' !! sid0 = Some s -> exists ph, phase_of w' sid0 s ph) ->
  (forall tid, (forall s, sessions w' !! sid0 = Some s -> token s <> tid) ->
     own sid0 (listeners (get_token tid w')) = []) ->
  (sessions w' !! sid0 = None -> own sid0 (timers w') = []) ->
  wf w'.
Proof.
  intros [P F N G] [A B C D E] Hph Hfo Hfr. constructor.
  - intros sid s Hs. destruct (decide (sid = sid0)) as [->|Hne]; [by apply Hph|].
    rewrite A in Hs by done. destruct (P sid s Hs) as [ph Hin].
    exists ph. by rewrite B, C, D.
  - intros sid tid Hs. destruct (decide (sid = sid0)) as [->|Hne]; [by apply Hfo|].
    rewrite C by done. apply F. intros s Hs'. apply Hs. by rewrite A.
  - intros sid Hs. destruct (decide (sid = sid0)) as [->|Hne]; [by apply Hfr|].
    rewrite D by done. apply N. by rewrite <- A.
  - intros tid Ht. rewrite B in Ht. rewrite E by done. by apply G.
Qed.

Lemma wf_plain sid0 F w :
  wf w ->
  (forall s0, token (F s0) = token s0) ->
  (forall s0 ph, sessions w !! sid0 = Some s0 -> phase_of w sid0 s0 ph ->
     exists ph', in_phase ph'
       (isCancellationRequested (get_token (token s0) w))
       (own sid0 (listeners (get_token (token s0) w)))
       (own sid0 (timers w)) (F s0)) ->
  wf (upd sid0 F w).
Proof.
  intros Hw Htok Hph. apply (wf_local sid0 w); [done|apply local_upd|..].
  - intros s. rewrite sessions_upd_eq.
    destruct (sessions w !! sid0) as [s0|] eqn:Hs0; [|done].
    intros [= <-]. destruct (wf_phase w Hw sid0 s0 Hs0) as [ph Hin].
    destruct (Hph _ _ eq_refl Hin) as [ph' Hin']. exists ph'.
    unfold phase_of. by rewrite Htok.
  - intros tid Hs. apply (wf_foreign w Hw). intros s0 Hs0.
    rewrite <- (Htok s0). apply Hs. by rewrite sessions_upd_eq, Hs0.
  - rewrite sessions_upd_eq. intros Hs. apply (wf_fresh w Hw).
    by destruct (sessions w !! sid0).
Qed.

Lemma wf_listening sid0 cb F w s0 :
  wf w -> sessions w !! sid0 = Some s0 ->
  isCancellationRequested (get_token (token s0) w) = false ->
  token (F s0) = token s0 ->
  (forall ph ls ts, in_phase ph false ls ts s0 ->
     exists ph', in_phase ph' false (ls ++ [cb]) ts (F s0)) ->
  wf (upd sid0 F
        (set_token (token s0)
           (mkToken false (listeners (get_token (token s0) w) ++ [(sid0, cb)])) w)).
Proof.
  intros Hw Hs0 Hc Htok Hph.
  assert (Hloc : local sid0 w
    (upd sid0 F (onCancellationRequested (token s0) (sid0, cb) w))).
  { eapply local_trans; [apply local_onCancellationRequested|apply local_upd]. }
  unfold onCancellationRequested in Hloc. rewrite Hc in Hloc.
  apply (wf_local sid0 w); [done|done|..].
  - intros s. rewrite sessions_upd_eq. simpl. rewrite Hs0. intros [= <-].
    destruct (wf_phase w Hw sid0 s0 Hs0) as [ph Hin]. rewrite Hc in Hin.
    destruct (Hph _ _ _ Hin) as [ph' Hin']. exists ph'.
    unfold phase_of. rewrite Htok.
    change (get_token (token s0) (upd sid0 F ?x)) with (get_token (token s0) x).
    rewrite get_token_set_eq. simpl. by rewrite own_snoc_eq.
  - intros tid Hs.
    change (get_token tid (upd sid0 F ?x)) with (get_token tid x).
    assert (token s0 <> tid) as Hne.
    { rewrite <- Htok. apply Hs. rewrite sessions_upd_eq. simpl. by rewrite Hs0. }
    rewrite get_token_set_ne by done.
    apply (wf_foreign w Hw). intros s Hs'. congruence.
  - rewrite sessions_upd_eq. simpl. by rewrite Hs0.
Qed.

Lemma wf_queued sid0 cb F w s0 :
  wf w -> sessions w !! sid0 = Some s0 ->
  isCancellationRequested (get_token (token s0) w) = true ->
  token (F s0) = token s0 ->
  (forall ph ls ts, in_phase ph true ls ts s0 ->
     exists ph', in_phase ph' true ls (ts ++ [cb]) (F s0)) ->
  wf (upd sid0 F (set_timers (timers w ++ [(sid0, cb)]) w)).
Proof.
  intros Hw Hs0 Hc Htok Hph.
  assert (Hloc : local sid0 w
    (upd sid0 F (onCancellationRequested (token s0) (sid0, cb) w))).
  { eapply local_trans; [apply local_onCancellationRequested|apply local_upd]. }
  unfold onCancellationRequested in Hloc. rewrite Hc in Hloc.
  apply (wf_local sid0 w); [done|done|..].
  - intros s. rewrite sessions_upd_eq. simpl. rewrite Hs0. intros [= <-].
    destruct (wf_phase w Hw sid0 s0 Hs0) as [ph Hin]. rewrite Hc in Hin.
    destruct (Hph _ _ _ Hin) as [ph' Hin']. exists ph'.
    unfold phase_of. rewrite Htok. simpl.
    change (get_token (token s0) (upd sid0 F ?x)) with (get_token (token s0) x).
    change (get_token (token s0) (set_timers ?t w)) with (get_token (token s0) w).
    by rewrite Hc, own_snoc_eq.
  - intros tid Hs.
    change (get_token tid (upd sid0 F ?x)) with (get_token tid x).
    change (get_token tid (set_timers ?t w)) with (get_token tid w).
    apply (wf_foreign w Hw). intros s Hs'.
    assert (s = s0) as -> by congruence.
    rewrite <- Htok. apply Hs. rewrite sessions_upd_eq. simpl. by rewrite Hs0.
  - rewrite sessions_upd_eq. simpl. by rewrite Hs0.
Qed.

Lemma wf_popped sid0 cb ts0 w :
  wf w -> timers w = (sid0, cb) :: ts0 ->
  (forall s0 ph c ls ts, sessions w !! sid0 = Some s0 ->
     in_phase ph c ls (cb :: ts) s0 ->
     exists ph', in_phase ph' c ls ts (run_callback cb s0)) ->
  wf (invoke (set_timers ts0 w) (sid0, cb)).
Proof.
  intros Hw Ht Hph. unfold invoke. simpl.
  assert (Hloc : local sid0 w (upd sid0 (run_callback cb) (set_timers ts0 w))).
  { eapply local_trans; [by eapply local_pop|apply local_upd]. }
  apply (wf_local sid0 w); [done|done|..].
  - intros s. rewrite sessions_upd_eq. simpl.
    destruct (sessions w !! sid0) as [s0|] eqn:Hs0; [|done].
    intros [= <-]. destruct (wf_phase w Hw sid0 s0 Hs0) as [ph Hin].
    rewrite Ht, own_cons_eq in Hin.
    destruct (Hph _ _ _ _ _ eq_refl Hin) as [ph' Hin']. exists ph'.
    unfold phase_of. by rewrite token_run_callback.
  - intros tid Hs. apply (wf_foreign w Hw). intros s0 Hs0.
    rewrite <- (token_run_callback cb). apply Hs.
    rewrite sessions_upd_eq. simpl. by rewrite Hs0.
  - rewrite sessions_upd_eq. simpl. intros Hs.
    assert (sessions w !! sid0 = None) as Hs0 by (by destruct (sessions w !! sid0)).
    pose proof (wf_fresh w Hw sid0 Hs0) as Hf.
    by rewrite Ht, own_cons_eq in Hf.
Qed.

(** ** Phase transitions of a single session *)

Ltac list_eq :=
  repeat (simpl; rewrite <- ?app_assoc); try reflexivity.

(** Take a phase hypothesis apart and drop the phases that contradict what
    is known about the program counter and the flag. *)
Ltac phase_cases H :=
  let ph := lazymatch type of H with in_phase ?ph _ _ _ _ => ph end in
  destruct H as [Hph_cancelled Hph_listeners Hph_timers Hph_disposed Hph_pc
                 Hph_recordingDone Hph_onmessage Hph_log Hph_subscribers
                 Hph_fired Hph_kinds];
  unfold kinds in Hph_kinds;
  destruct ph; simpl in *; simplify_eq; try done.

(** Show that a session is in phase [ph]. *)
Ltac in_phase ph :=
  unfold complete_recordingDone; simpl;
  repeat match goal with H : pc ?s = _ |- context [pc ?s] => rewrite H end;
  repeat case_decide; try done;
  exists ph; constructor; simpl in *;
  try match goal with H : pc ?s = _ |- context [pc ?s] => rewrite H end;
  try done; try congruence; try (intros; congruence);
  try (unfold complete_recordingDone; simpl; repeat case_decide; simpl; try done);
  try (repeat match goal with H : log _ = _ |- _ => rewrite H; clear H end;
       unfold setup_recording, setup_node, setup_graph, setup_microphone,
              teardown_block, stop_block;
       list_eq; done);
  try (unfold kinds; simpl; rewrite ?fmap_app; simpl;
       repeat match goal with H : _.*1 = _ |- _ => rewrite H; clear H end;
       done).

Ltac auto_phase :=
  first
    [ solve [in_phase Acquiring] | solve [in_phase Building]
    | solve [in_phase Connecting] | solve [in_phase Starting]
    | solve [in_phase Live]
    | solve [in_phase Precancelled] | solve [in_phase Aborted]
    | solve [in_phase TornDownBuilding] | solve [in_phase TornDownConnecting]
    | solve [in_phase StopPending] | solve [in_phase StopSent]
    | solve [in_phase TornDownStarting] | solve [in_phase TornDownLive] ].

(** Line 110 with the flag set: the callback returns. *)
Lemma phase_getUserMedia_cancelled tracks n s ph ls ts :
  in_phase ph true ls ts s -> pc s = AwaitMicrophone ->
  exists ph', in_phase ph' true ls ts (abort_microphone tracks n s).
Proof.
  intros H Hpc. unfold abort_microphone.
  phase_cases H; rewrite Hpc in *; try done; auto_phase.
Qed.

(** Lines 114-131 with the flag clear. *)
Lemma phase_getUserMedia_live tracks n s ph ls ts :
  in_phase ph false ls ts s -> pc s = AwaitMicrophone ->
  exists ph', in_phase ph' false (ls ++ [Teardown]) ts (build_graph tracks n s).
Proof.
  intros H Hpc. unfold build_graph, build_node.
  phase_cases H; rewrite Hpc in *; try done; auto_phase.
Qed.

Lemma phase_reject_microphone s ph c ls ts :
  in_phase ph c ls ts s -> pc s = AwaitMicrophone ->
  exists ph', in_phase ph' c ls ts (goto (Rejected AcquiringMicrophone) s).
Proof.
  intros H Hpc. unfold build_graph, build_node.
  phase_cases H; rewrite Hpc in *; try done; auto_phase.
Qed.

Lemma phase_addModule_cancelled s ph ls ts :
  in_phase ph true ls ts s -> pc s = AwaitModule ->
  exists ph', in_phase ph' true ls ts (goto Stopped s).
Proof.
  intros H Hpc. unfold build_graph, build_node.
  phase_cases H; rewrite Hpc in *; try done; auto_phase.
Qed.

(** Lines 137-141 and 53 with the flag clear. *)
Lemma phase_addModule_live n s ph ls ts :
  in_phase ph false ls ts s -> pc s = AwaitModule ->
  exists ph', in_phase ph' false ls ts (build_node n s).
Proof.
  intros H Hpc. unfold build_graph, build_node.
  phase_cases H; rewrite Hpc in *; try done; auto_phase.
Qed.

Lemma phase_reject_module s ph c ls ts :
  in_phase ph c ls ts s -> pc s = AwaitModule ->
  exists ph', in_phase ph' c ls ts (goto (Rejected BuildingGraph) s).
Proof.
  intros H Hpc. unfold build_graph, build_node.
  phase_cases H; rewrite Hpc in *; try done; auto_phase.
Qed.

(** Lines 53-60 with the flag set: the listener is queued. *)
Lemma phase_createRawConnection_cancelled n s ph ls ts :
  in_phase ph true ls ts s -> pc s = AwaitConnection ->
  exists ph', in_phase ph' true ls (ts ++ [StopTranscription])
                       (open_connection n s).
Proof.
  intros H Hpc. unfold open_connection.
  phase_cases H; rewrite Hpc in *; try done; auto_phase.
Qed.

(** Lines 53-60 with the flag clear. *)
Lemma phase_createRawConnection_live n s ph ls ts :
  in_phase ph false ls ts s -> pc s = AwaitConnection ->
  exists ph', in_phase ph' false (ls ++ [StopTranscription]) ts
                       (open_connection n s).
Proof.
  intros H Hpc. unfold open_connection.
  phase_cases H; rewrite Hpc in *; try done; auto_phase.
Qed.

(** [start] throws at line 53. *)
Lemma phase_reject_connection s ph c ls ts :
  in_phase ph c ls ts s -> pc s = AwaitConnection ->
  exists ph', in_phase ph' c ls ts (goto StartRejected s).
Proof.
  intros H Hpc.
  phase_cases H; rewrite Hpc in *; try done; auto_phase.
Qed.

(** Line 143 with the flag set. *)
Lemma phase_start_cancelled s ph ls ts :
  in_phase ph true ls ts s -> pc s = StartFulfilled ->
  exists ph', in_phase ph' true ls ts (goto Stopped s).
Proof.
  intros H Hpc.
  phase_cases H; rewrite Hpc in *; try done; auto_phase.
Qed.

(** Lines 147-151 with the flag clear. *)
Lemma phase_start_live s ph ls ts :
  in_phase ph false ls ts s -> pc s = StartFulfilled ->
  exists ph', in_phase ph' false ls ts (begin_recording s).
Proof.
  intros H Hpc. unfold begin_recording.
  phase_cases H; rewrite Hpc in *; try done.
  simpl.
  match goal with H : recordingDone s = _ |- _ => rewrite H end.
  auto_phase.
Qed.

(** The [await] of line 141 throws. *)
Lemma phase_start_rejected s ph c ls ts :
  in_phase ph c ls ts s -> pc s = StartRejected ->
  exists ph', in_phase ph' c ls ts (goto (Rejected ConnectingSideChannel) s).
Proof.
  intros H Hpc.
  phase_cases H; rewrite Hpc in *; try done; auto_phase.
Qed.

Lemma phase_subscribe l s ph c ls ts :
  in_phase ph c ls ts s ->
  in_phase ph c ls ts (set_emitter (emitter_subscribe l (onDidTranscribe s)) s).
Proof.
  intros [? ? ? Hd ? ? ? ? Hsub ? ?]. unfold emitter_subscribe.
  destruct (disposed (onDidTranscribe s)) eqn:E; constructor; simpl; try done.
  all: rewrite ?E; done.
Qed.

Lemma phase_port_message data s ph c ls ts :
  in_phase ph c ls ts s ->
  in_phase ph c ls ts (if onmessage s then port_onmessage data s else s).
Proof.
  intros H. destruct (onmessage s) eqn:E; [|done].
  unfold port_onmessage. case_decide; [|done].
  destruct data; try done.
  destruct H. constructor; simpl; try done. congruence.
Qed.

(** A queued callback runs. *)
Lemma phase_timeout cb s ph c ls ts :
  in_phase ph c ls (cb :: ts) s ->
  exists ph', in_phase ph' c ls ts (run_callback cb s).
Proof.
  intros H. phase_cases H;
    destruct (pc s) as [| | | | | | |[]] eqn:Hpc; simpl in *; try done.
  all: auto_phase.
Qed.

(** The token is cancelled: the listeners of the session run in order. *)
Lemma phase_cancel s ph ls ts :
  in_phase ph false ls ts s ->
  exists ph', in_phase ph' true [] ts
                       (foldl (fun s cb => run_callback cb s) s ls).
Proof.
  intros H. phase_cases H;
    destruct (pc s) as [| | | | | | |[]] eqn:Hpc; simpl in *; try done.
  all: auto_phase.
Qed.

(** ** The invariant holds in every reachable world *)

Lemma cancelled_eq sid s w :
  sessions w !! sid = Some s ->
  cancelled sid w = isCancellationRequested (get_token (token s) w).
Proof. unfold cancelled. by intros ->. Qed.

Lemma upd_upd sid f g w : upd sid f (upd sid g w) = upd sid (f ∘ g) w.
Proof. unfold upd. simpl. f_equal. apply list_alter_alter_eq. Qed.

Lemma get_token_upd tid sid f w : get_token tid (upd sid f w) = get_token tid w.
Proof. reflexivity. Qed.

Lemma get_token_set_timers tid ts w :
  get_token tid (set_timers ts w) = get_token tid w.
Proof. reflexivity. Qed.

Lemma set_token_upd tid t sid f w :
  set_token tid t (upd sid f w) = upd sid f (set_token tid t w).
Proof. reflexivity. Qed.

Lemma set_timers_upd ts sid f w :
  set_timers ts (upd sid f w) = upd sid f (set_timers ts w).
Proof. reflexivity. Qed.

Lemma onCancellationRequested_live tid l w :
  isCancellationRequested (get_token tid w) = false ->
  onCancellationRequested tid l w
  = set_token tid (mkToken false (listeners (get_token tid w) ++ [l])) w.
Proof. unfold onCancellationRequested. by intros ->. Qed.

Lemma onCancellationRequested_late tid l w :
  isCancellationRequested (get_token tid w) = true ->
  onCancellationRequested tid l w = set_timers (timers w ++ [l]) w.
Proof. unfold onCancellationRequested. by intros ->. Qed.

Lemma upd_set_objects sid f n w :
  upd sid f (set_objects n w) = set_objects n (upd sid f w).
Proof. reflexivity. Qed.

Lemma set_objects_idem n m w : set_objects n (set_objects m w) = set_objects n w.
Proof. reflexivity. Qed.

Lemma cancelled_set_objects sid n w :
  cancelled sid (set_objects n w) = cancelled sid w.
Proof. reflexivity. Qed.

Lemma onCancellationRequested_set_objects tid l n w :
  onCancellationRequested tid l (set_objects n w)
  = set_objects n (onCancellationRequested tid l w).
Proof.
  unfold onCancellationRequested.
  change (get_token tid (set_objects n w)) with (get_token tid w).
  by destruct (isCancellationRequested (get_token tid w)).
Qed.

Ltac normalise :=
  unfold new;
  repeat first
    [ rewrite upd_set_objects | rewrite set_objects_idem
    | rewrite cancelled_set_objects
    | rewrite onCancellationRequested_set_objects
    | rewrite upd_upd ];
  simpl objects.

(** The continuations in normal form: one update of the session, at most one
    registration, and the new number of objects. *)
Lemma after_getUserMedia_cancelled w sid s tracks :
  sessions w !! sid = Some s ->
  isCancellationRequested (get_token (token s) w) = true ->
  after_getUserMedia sid (token s) tracks w
  = set_objects (S (objects w))
      (upd sid (abort_microphone tracks (objects w)) w).
Proof.
  intros Hs Hc. unfold after_getUserMedia. normalise.
  rewrite (cancelled_eq sid
             (set_microphoneDevice tracks (acquire MicrophoneStream (objects w) s)))
    by (by rewrite sessions_upd_eq, Hs).
  rewrite !get_token_upd. simpl token. rewrite Hc. by normalise.
Qed.

Lemma after_getUserMedia_live w sid s tracks :
  sessions w !! sid = Some s ->
  isCancellationRequested (get_token (token s) w) = false ->
  after_getUserMedia sid (token s) tracks w
  = set_objects (S (S (S (objects w))))
      (upd sid (build_graph tracks (objects w))
         (set_token (token s)
            (mkToken false
               (listeners (get_token (token s) w) ++ [(sid, Teardown)])) w)).
Proof.
  intros Hs Hc. unfold after_getUserMedia. normalise.
  rewrite (cancelled_eq sid
             (set_microphoneDevice tracks (acquire MicrophoneStream (objects w) s)))
    by (by rewrite sessions_upd_eq, Hs).
  rewrite !get_token_upd. simpl token. rewrite Hc. normalise.
  rewrite onCancellationRequested_live by done.
  rewrite !get_token_upd.
  rewrite !set_token_upd. by normalise.
Qed.

Lemma after_addModule_cancelled w sid s :
  sessions w !! sid = Some s ->
  isCancellationRequested (get_token (token s) w) = true ->
  after_addModule sid w = upd sid (goto Stopped) w.
Proof.
  intros Hs Hc. unfold after_addModule.
  by rewrite (cancelled_eq sid s), Hc.
Qed.

Lemma after_addModule_live w sid s :
  sessions w !! sid = Some s ->
  isCancellationRequested (get_token (token s) w) = false ->
  after_addModule sid w
  = set_objects (S (objects w)) (upd sid (build_node (objects w)) w).
Proof.
  intros Hs Hc.
  unfold after_addModule, new_VoiceTranscriptionWorkletNode, start_begin.
  rewrite (cancelled_eq sid s), Hc by done. by normalise.
Qed.

Lemma start_resume_cancelled w sid s :
  sessions w !! sid = Some s ->
  isCancellationRequested (get_token (token s) w) = true ->
  start_resume sid (token s) w
  = set_objects (S (objects w))
      (upd sid (open_connection (objects w))
         (set_timers (timers w ++ [(sid, StopTranscription)]) w)).
Proof.
  intros Hs Hc. unfold start_resume. normalise.
  rewrite onCancellationRequested_late by done.
  simpl timers. rewrite set_timers_upd. by normalise.
Qed.

Lemma start_resume_live w sid s :
  sessions w !! sid = Some s ->
  isCancellationRequested (get_token (token s) w) = false ->
  start_resume sid (token s) w
  = set_objects (S (objects w))
      (upd sid (open_connection (objects w))
         (set_token (token s)
            (mkToken false
               (listeners (get_token (token s) w) ++ [(sid, StopTranscription)]))
            w)).
Proof.
  intros Hs Hc. unfold start_resume. normalise.
  rewrite onCancellationRequested_live by done.
  rewrite !get_token_upd, set_token_upd. by normalise.
Qed.

Lemma after_start_cancelled w sid s :
  sessions w !! sid = Some s ->
  isCancellationRequested (get_token (token s) w) = true ->
  after_start sid w = upd sid (goto Stopped) w.
Proof.
  intros Hs Hc. unfold after_start.
  by rewrite (cancelled_eq sid s), Hc.
Qed.

Lemma after_start_live w sid s :
  sessions w !! sid = Some s ->
  isCancellationRequested (get_token (token s) w) = false ->
  after_start sid w = upd sid begin_recording w.
Proof.
  intros Hs Hc. unfold after_start.
  rewrite (cancelled_eq sid s), Hc by done. by normalise.
Qed.

Lemma wf_after_getUserMedia w sid s tracks :
  wf w -> sessions w !! sid = Some s -> pc s = AwaitMicrophone ->
  wf (after_getUserMedia sid (token s) tracks w).
Proof.
  intros Hw Hs Hpc.
  destruct (isCancellationRequested (get_token (token s) w)) eqn:Hc.
  - rewrite after_getUserMedia_cancelled by done.
    apply wf_set_objects, wf_plain; [done..|].
    intros s0 ph Hs0 Hph. simplify_eq. unfold phase_of in Hph.
    rewrite Hc in *. by eapply phase_getUserMedia_cancelled.
  - rewrite after_getUserMedia_live by done.
    apply wf_set_objects, wf_listening; [done..|].
    intros ph ls ts Hph. by eapply phase_getUserMedia_live.
Qed.

Lemma wf_after_addModule w sid s :
  wf w -> sessions w !! sid = Some s -> pc s = AwaitModule ->
  wf (after_addModule sid w).
Proof.
  intros Hw Hs Hpc.
  destruct (isCancellationRequested (get_token (token s) w)) eqn:Hc.
  - rewrite (after_addModule_cancelled w sid s) by done.
    apply wf_plain; [done..|].
    intros s0 ph Hs0 Hph. simplify_eq. unfold phase_of in Hph.
    rewrite Hc in *. by eapply phase_addModule_cancelled.
  - rewrite (after_addModule_live w sid s) by done.
    apply wf_set_objects, wf_plain; [done..|].
    intros s0 ph Hs0 Hph. simplify_eq. unfold phase_of in Hph.
    rewrite Hc in *. by eapply phase_addModule_live.
Qed.

Lemma wf_start_resume w sid s :
  wf w -> sessions w !! sid = Some s -> pc s = AwaitConnection ->
  wf (start_resume sid (token s) w).
Proof.
  intros Hw Hs Hpc.
  destruct (isCancellationRequested (get_token (token s) w)) eqn:Hc.
  - rewrite start_resume_cancelled by done.
    apply wf_set_objects, (wf_queued sid StopTranscription _ w s); [done..|].
    intros ph ls ts Hph. by eapply phase_createRawConnection_cancelled.
  - rewrite start_resume_live by done.
    apply wf_set_objects,
      (wf_listening sid StopTranscription (open_connection (objects w)));
      [done..|].
    intros ph ls ts Hph. by eapply phase_createRawConnection_live.
Qed.

Lemma wf_after_start w sid s :
  wf w -> sessions w !! sid = Some s -> pc s = StartFulfilled ->
  wf (after_start sid w).
Proof.
  intros Hw Hs Hpc.
  destruct (isCancellationRequested (get_token (token s) w)) eqn:Hc.
  - rewrite (after_start_cancelled w sid s) by done.
    apply wf_plain; [done..|].
    intros s0 ph Hs0 Hph. simplify_eq. unfold phase_of in Hph.
    rewrite Hc in *. by eapply phase_start_cancelled.
  - rewrite (after_start_live w sid s) by done.
    apply wf_plain; [done| |].
    + intros s0. unfold begin_recording. simpl. by destruct (recordingDone s0).
    + intros s0 ph Hs0 Hph. simplify_eq. unfold phase_of in Hph.
      rewrite Hc in *. by eapply phase_start_live.
Qed.

Lemma wf_start_rejected w sid s :
  wf w -> sessions w !! sid = Some s -> pc s = AwaitConnection ->
  wf (upd sid (goto StartRejected) w).
Proof.
  intros Hw Hs Hpc. apply wf_plain; [done..|].
  intros s0 ph Hs0 Hph. simplify_eq. unfold phase_of in Hph.
  by eapply phase_reject_connection.
Qed.

Lemma wf_reject w sid s stage :
  wf w -> sessions w !! sid = Some s ->
  match stage with
  | AcquiringMicrophone => pc s = AwaitMicrophone
  | BuildingGraph => pc s = AwaitModule
  | ConnectingSideChannel => pc s = StartRejected
  end ->
  wf (upd sid (goto (Rejected stage)) w).
Proof.
  intros Hw Hs Hpc. apply wf_plain; [done..|].
  intros s0 ph Hs0 Hph. simplify_eq. unfold phase_of in Hph.
  destruct stage.
  - by eapply phase_reject_microphone.
  - by eapply phase_reject_module.
  - by eapply phase_start_rejected.
Qed.

(** The call of the async callback inside [withProgress] returns, whatever
    [getUserMedia] does. *)
Lemma doTranscribe_eq sid throws w s :
  sessions w !! sid = Some s ->
  doTranscribe sid throws w = (Normal tt, upd sid (callback_begin throws) w).
Proof.
  intros Hs. unfold doTranscribe, withProgress. rewrite Hs.
  assert (upd sid (fun _ => callback_begin throws s) w
          = upd sid (callback_begin throws) w) as <-.
  { unfold upd. f_equal. apply list_alter_ext; [|done].
    intros s0 Hs0. congruence. }
  unfold callback_begin.
  by destruct (async (callback_body throws) s) as [[[]|] s'] eqn:E;
    destruct throws.
Qed.

Lemma transcribe_eq tid throws w :
  transcribe tid throws w
  = (Normal (length (sessions w)),
     upd (length (sessions w)) (callback_begin throws)
       (onCancellationRequested tid (length (sessions w), DisposeEmitter)
          (mkWorld (tokens w) (sessions w ++ [session_new tid (objects w)])
                   (timers w) (S (objects w))))).
Proof.
  unfold transcribe.
  erewrite doTranscribe_eq; [done|].
  replace (sessions (onCancellationRequested tid
             (length (sessions w), DisposeEmitter)
             (mkWorld (tokens w) (sessions w ++ [session_new tid (objects w)])
                      (timers w) (S (objects w)))))
    with (sessions w ++ [session_new tid (objects w)])
    by (unfold onCancellationRequested; by destruct (isCancellationRequested _)).
  rewrite lookup_app_r by lia.
  by replace (length (sessions w) - length (sessions w)) with 0 by lia.
Qed.

Lemma wf_transcribe tid throws w : wf w -> wf (transcribe tid throws w).2.
Proof.
  intros Hw. rewrite transcribe_eq. simpl.
  set (sid := length (sessions w)).
  set (w1 := mkWorld (tokens w) (sessions w ++ [session_new tid (objects w)])
                     (timers w) (S (objects w))).
  assert (Hnone : sessions w !! sid = None) by (by apply lookup_ge_None).
  assert (Hnew : sessions (upd sid (callback_begin throws)
                   (onCancellationRequested tid (sid, DisposeEmitter) w1)) !! sid
                 = Some (callback_begin throws (session_new tid (objects w)))).
  { rewrite sessions_upd_eq.
    replace (sessions (onCancellationRequested tid (sid, DisposeEmitter) w1))
      with (sessions w ++ [session_new tid (objects w)])
      by (unfold onCancellationRequested; by destruct (isCancellationRequested _)).
    rewrite lookup_app_r by (unfold sid; lia).
    by replace (sid - length (sessions w)) with 0 by (unfold sid; lia). }
  assert (Hls : forall t, own sid (listeners (get_token t w)) = []).
  { intros t. apply (wf_foreign w Hw). intros s Hs. congruence. }
  assert (Hts : own sid (timers w) = []) by (by apply (wf_fresh w Hw)).
  apply (wf_local sid w); [done| |..].
  - eapply local_trans; [apply local_push|].
    eapply local_trans; [apply local_onCancellationRequested|apply local_upd].
  - intros s. rewrite Hnew. intros [= <-].
    unfold phase_of. rewrite get_token_upd.
    replace (token (callback_begin throws (session_new tid (objects w)))) with tid
      by (by destruct throws).
    unfold onCancellationRequested.
    change (get_token tid w1) with (get_token tid w). simpl.
    destruct (isCancellationRequested (get_token tid w)) eqn:Hc.
    + exists Precancelled. simpl.
      change (get_token tid (set_timers ?t w1)) with (get_token tid w).
      rewrite Hls, own_snoc_eq, Hts, Hc.
      destruct throws; by constructor.
    + exists Acquiring. rewrite get_token_set_eq. simpl.
      rewrite own_snoc_eq, Hls, Hts.
      destruct throws; by constructor.
  - intros t Ht. rewrite get_token_upd.
    assert (tid <> t) as Hne.
    { intros <-. eapply (Ht _ Hnew). by destruct throws. }
    unfold onCancellationRequested.
    change (get_token tid w1) with (get_token tid w).
    destruct (isCancellationRequested (get_token tid w)).
    + apply Hls.
    + rewrite get_token_set_ne by done. apply Hls.
  - by rewrite Hnew.
Qed.

Lemma wf_cancel tid w : wf w -> wf (cancel tid w).
Proof.
  intros Hw. unfold cancel.
  destruct (isCancellationRequested (get_token tid w)) eqn:Hc; [done|].
  set (ls := listeners (get_token tid w)).
  set (w1 := set_token tid (mkToken true []) w).
  assert (Hses : forall sid s', sessions (foldl invoke w1 ls) !! sid = Some s' ->
    exists s, sessions w !! sid = Some s /\ token s' = token s /\
      s' = foldl (fun s cb => run_callback cb s) s (own sid ls)).
  { intros sid s'. rewrite sessions_invokes.
    change (sessions w1) with (sessions w).
    destruct (sessions w !! sid) as [s|]; [|done]. intros [= <-].
    exists s. by rewrite token_run_callbacks. }
  constructor.
  - intros sid s' Hs'. destruct (Hses _ _ Hs') as (s & Hs & Htok & ->).
    destruct (wf_phase w Hw sid s Hs) as [ph Hph].
    rewrite Htok, get_token_invokes, timers_invokes.
    change (timers w1) with (timers w).
    destruct (decide (token s = tid)) as [Heq|Hne].
    + rewrite Heq in *. unfold w1. rewrite get_token_set_eq. simpl.
      rewrite Hc in Hph. by eapply phase_cancel.
    + unfold w1 at 1 2. rewrite get_token_set_ne by done.
      replace (own sid ls) with (@nil Callback).
      * by exists ph.
      * symmetry. apply (wf_foreign w Hw). intros s0 Hs0. congruence.
  - intros sid t Ht. rewrite get_token_invokes. unfold w1.
    destruct (decide (tid = t)) as [<-|Hne].
    + by rewrite get_token_set_eq.
    + rewrite get_token_set_ne by done. apply (wf_foreign w Hw).
      intros s Hs.
      assert (sessions (foldl invoke w1 ls) !! sid
              = Some (foldl (fun s cb => run_callback cb s) s (own sid ls))) as Hs'.
      { rewrite sessions_invokes. change (sessions w1) with (sessions w).
        by rewrite Hs. }
      specialize (Ht _ Hs'). by rewrite token_run_callbacks in Ht.
  - intros sid Hs. rewrite timers_invokes. apply (wf_fresh w Hw).
    rewrite sessions_invokes in Hs. change (sessions w1) with (sessions w) in Hs.
    by destruct (sessions w !! sid).
  - intros t Ht. rewrite get_token_invokes in *. unfold w1 in *.
    destruct (decide (tid = t)) as [<-|Hne].
    + by rewrite get_token_set_eq.
    + rewrite get_token_set_ne in * by done. by apply (wf_forgotten w Hw).
Qed.

Lemma wf_init : wf world_init.
Proof. by constructor. Qed.

Lemma wf_step w e : wf w -> wf (step w e).
Proof.
  intros Hw.
  destruct e as [tid thr|tid|sid l|sid tr|sid|sid|sid|sid|sid|sid|sid d|];
    simpl; unfold resume.
  - by apply wf_transcribe.
  - by apply wf_cancel.
  - apply wf_plain; [done..|]. intros s ph Hs Hph. exists ph.
    by apply phase_subscribe.
  - destruct (sessions w !! sid) as [s|] eqn:Hs; [|done].
    case_decide; [|done]. by apply wf_after_getUserMedia.
  - destruct (sessions w !! sid) as [s|] eqn:Hs; [|done].
    case_decide; [|done]. by apply (wf_reject w sid s AcquiringMicrophone).
  - destruct (sessions w !! sid) as [s|] eqn:Hs; [|done].
    case_decide; [|done]. by eapply wf_after_addModule.
  - destruct (sessions w !! sid) as [s|] eqn:Hs; [|done].
    case_decide; [|done]. by apply (wf_reject w sid s BuildingGraph).
  - destruct (sessions w !! sid) as [s|] eqn:Hs; [|done].
    case_decide; [|done]. by apply wf_start_resume.
  - destruct (sessions w !! sid) as [s|] eqn:Hs; [|done].
    case_decide; [|done]. by eapply wf_start_rejected.
  - destruct (sessions w !! sid) as [s|] eqn:Hs; [|done].
    destruct (pc s) eqn:Hpc; try done.
    + by eapply wf_after_start.
    + by apply (wf_reject w sid s ConnectingSideChannel).
  - apply wf_plain; [done| |].
    + intros s. destruct (onmessage s); [|done]. unfold port_onmessage.
      case_decide; [|done]. by destruct d.
    + intros s ph Hs Hph. exists ph. by apply phase_port_message.
  - destruct (timers w) as [|[sid cb] ts] eqn:Ht; [done|].
    apply wf_popped; [done..|].
    intros s ph c ls ts' Hs Hph. by eapply phase_timeout.
Qed.

Lemma wf_run_from w evs : wf w -> wf (run_from w evs).
Proof.
  revert w. induction evs as [|e evs IH]; intros w Hw; [done|].
  simpl. apply IH. by apply wf_step.
Qed.

Lemma wf_run evs : wf (run evs).
Proof. apply wf_run_from, wf_init. Qed.

(** ** Every step of the world is a step of each session *)

(** The view of the session that was updated. *)
Lemma view_plain sid F w s :
  sessions w !! sid = Some s -> token (F s) = token s ->
  sessions (upd sid F w) !! sid = Some (F s)
  /\ view (upd sid F w) sid (F s) = view w sid s.
Proof.
  intros Hs Htok. split.
  - by rewrite sessions_upd_eq, Hs.
  - unfold view. by rewrite Htok.
Qed.

Lemma view_listening sid cb F w s :
  sessions w !! sid = Some s -> token (F s) = token s ->
  let w' := upd sid F
      (set_token (token s)
         (mkToken false (listeners (get_token (token s) w) ++ [(sid, cb)])) w) in
  sessions w' !! sid = Some (F s)
  /\ view w' sid (F s)
     = mkView false (own sid (listeners (get_token (token s) w)) ++ [cb])
              (own sid (timers w)) (objects w).
Proof.
  intros Hs Htok. split.
  - rewrite sessions_upd_eq. simpl. by rewrite Hs.
  - unfold view. rewrite Htok, get_token_upd, get_token_set_eq. simpl.
    by rewrite own_snoc_eq.
Qed.

Lemma view_queued sid cb F w s :
  sessions w !! sid = Some s -> token (F s) = token s ->
  let w' := upd sid F (set_timers (timers w ++ [(sid, cb)]) w) in
  sessions w' !! sid = Some (F s)
  /\ view w' sid (F s)
     = mkView (isCancellationRequested (get_token (token s) w))
              (own sid (listeners (get_token (token s) w)))
              (own sid (timers w) ++ [cb]) (objects w).
Proof.
  intros Hs Htok. split.
  - rewrite sessions_upd_eq. simpl. by rewrite Hs.
  - unfold view. rewrite Htok, get_token_upd, get_token_set_timers. simpl.
    by rewrite own_snoc_eq.
Qed.

Lemma view_set_objects n w sid s :
  view (set_objects n w) sid s
  = mkView (v_cancelled (view w sid s)) (v_listeners (view w sid s))
           (v_timers (view w sid s)) n.
Proof. reflexivity. Qed.

Ltac solve_local :=
  repeat first
    [ apply local_refl | apply local_upd | apply local_onCancellationRequested
    | apply local_new
    | eapply local_trans;
      [|first [apply local_upd | apply local_onCancellationRequested
              | apply local_new]] ].

Lemma objects_invokes ls w : objects (foldl invoke w ls) = objects w.
Proof. revert w. induction ls as [|l ls IH]; intros w; [done|]. simpl. by rewrite IH. Qed.

Lemma objects_onCancellationRequested tid l w :
  objects (onCancellationRequested tid l w) = objects w.
Proof.
  unfold onCancellationRequested. by destruct (isCancellationRequested _).
Qed.

(** Objects are created, never forgotten. *)
Lemma objects_step w e : objects w <= objects (step w e).
Proof.
  destruct e as [tid thr|tid|sid l|sid tr|sid|sid|sid|sid|sid|sid|sid d|];
    simpl; unfold resume;
    try (destruct (sessions w !! sid) as [s|] eqn:Hs; [|done]);
    try (case_decide; [|done]); try done.
  - rewrite transcribe_eq. simpl. rewrite objects_onCancellationRequested.
    simpl. lia.
  - unfold cancel. destruct (isCancellationRequested _); [done|].
    by rewrite objects_invokes.
  - destruct (isCancellationRequested (get_token (token s) w)) eqn:Hc.
    + rewrite after_getUserMedia_cancelled by done. simpl. lia.
    + rewrite after_getUserMedia_live by done. simpl. lia.
  - destruct (isCancellationRequested (get_token (token s) w)) eqn:Hc.
    + by rewrite (after_addModule_cancelled w sid s).
    + rewrite (after_addModule_live w sid s) by done. simpl. lia.
  - destruct (isCancellationRequested (get_token (token s) w)) eqn:Hc.
    + rewrite start_resume_cancelled by done. simpl. lia.
    + rewrite start_resume_live by done. simpl. lia.
  - destruct (pc s); try done.
    unfold after_start. by destruct (cancelled sid w).
  - by destruct (timers w) as [|[sid cb] ts].
Qed.

(** An event of a session touches that session only. *)
Lemma step_local w e sid0 : actor w e = Some sid0 -> local sid0 w (step w e).
Proof.
  destruct e as [tid thr|tid|sid l|sid tr|sid|sid|sid|sid|sid|sid|sid d|];
    simpl; intros Ha; simplify_eq; unfold resume;
    try (destruct (sessions w !! sid0) as [s|] eqn:Hs; [|apply local_refl];
         case_decide; [|apply local_refl]).
  - rewrite transcribe_eq. simpl.
    eapply local_trans; [apply local_push|]. solve_local.
  - solve_local.
  - unfold after_getUserMedia. destruct (cancelled _ _); solve_local.
  - solve_local.
  - unfold after_addModule, new_VoiceTranscriptionWorkletNode, start_begin.
    destruct (cancelled _ _); solve_local.
  - solve_local.
  - unfold start_resume. solve_local.
  - solve_local.
  - destruct (sessions w !! sid0) as [s|] eqn:Hs; [|apply local_refl].
    destruct (pc s); try apply local_refl.
    + unfold after_start. destruct (cancelled _ _); solve_local.
    + solve_local.
  - solve_local.
  - destruct (timers w) as [|[sid cb] ts] eqn:Ht; simplify_eq. simpl.
    unfold invoke. simpl.
    eapply local_trans; [by eapply local_pop|apply local_upd].
Qed.

Lemma view_local sid0 w w' sid s :
  local sid0 w w' -> sid <> sid0 -> sessions w !! sid = Some s ->
  sessions w' !! sid = Some s
  /\ view w' sid s
     = mkView (v_cancelled (view w sid s)) (v_listeners (view w sid s))
              (v_timers (view w sid s)) (objects w').
Proof.
  intros [A B C D E] Hne Hs. split.
  - by rewrite A.
  - unfold view. simpl. by rewrite B, C, D.
Qed.

Lemma fired_run_callback cb s :
  fired (run_callback cb s) = fired s
  /\ delivered (run_callback cb s) = delivered s.
Proof.
  destruct cb; simpl; try done.
  unfold complete_recordingDone. by case_decide.
Qed.

Lemma fired_run_callbacks cbs s :
  fired (foldl (fun s cb => run_callback cb s) s cbs) = fired s
  /\ delivered (foldl (fun s cb => run_callback cb s) s cbs) = delivered s.
Proof.
  revert s. induction cbs as [|cb cbs IH]; intros s; [done|].
  simpl. destruct (IH (run_callback cb s)) as [-> ->].
  apply fired_run_callback.
Qed.

Lemma step_session w e sid s :
  wf w -> sessions w !! sid = Some s ->
  exists s', sessions (step w e) !! sid = Some s' /\ token s' = token s
    /\ (speaks sid e = false ->
        fired s' = fired s /\ delivered s' = delivered s)
    /\ session_step (view w sid s) s (view (step w e) sid s') s'.
Proof.
  intros Hw Hs.
  assert (Hidle : forall w', w' = w ->
    exists s', sessions w' !! sid = Some s' /\ token s' = token s
      /\ (speaks sid e = false ->
          fired s' = fired s /\ delivered s' = delivered s)
      /\ session_step (view w sid s) s (view w' sid s') s').
  { intros w' ->. exists s. repeat split; [done..|by constructor]. }
  destruct (actor w e) as [sid0|] eqn:Ha.
  - destruct (decide (sid = sid0)) as [<-|Hne].
    2:{ destruct (view_local sid0 w (step w e) sid s) as [Hs' Hv];
          [by apply step_local|done..|].
        exists s. rewrite Hv. repeat split; [done..|].
        constructor. apply objects_step. }
    destruct e as [tid thr|tid|sid' l|sid' tr|sid'|sid'|sid'|sid'|sid'|sid'|sid' d|];
      simpl in Ha; simplify_eq; simpl; unfold resume; rewrite ?Hs;
      try (case_decide; [|by apply Hidle]).
    + apply lookup_lt_Some in Hs. lia.
    + edestruct (view_plain sid
        (fun s => set_emitter (emitter_subscribe l (onDidTranscribe s)) s) w s)
        as [Hs' Hv]; [done..|].
      eexists. rewrite Hv. repeat split; [done..|constructor].
    + destruct (isCancellationRequested (get_token (token s) w)) eqn:Hc.
      * rewrite after_getUserMedia_cancelled by done.
        edestruct (view_plain sid (abort_microphone tr (objects w)) w s)
          as [Hs' Hv]; [done..|].
        eexists. rewrite view_set_objects, Hv. repeat split; [done..|].
        unfold view. simpl. rewrite Hc. by constructor.
      * rewrite after_getUserMedia_live by done.
        edestruct (view_listening sid Teardown (build_graph tr (objects w)) w s)
          as [Hs' Hv]; [done..|].
        eexists. rewrite view_set_objects, Hv. repeat split; [done..|].
        unfold view. simpl. rewrite Hc. by constructor.
    + edestruct (view_plain sid (goto (Rejected AcquiringMicrophone)) w s)
        as [Hs' Hv]; [done..|].
      eexists. rewrite Hv. repeat split; [done..|by constructor].
    + destruct (isCancellationRequested (get_token (token s) w)) eqn:Hc.
      * rewrite (after_addModule_cancelled w sid s) by done.
        edestruct (view_plain sid (goto Stopped) w s) as [Hs' Hv]; [done..|].
        eexists. rewrite Hv. repeat split; [done..|].
        unfold view. rewrite Hc. by constructor.
      * rewrite (after_addModule_live w sid s) by done.
        edestruct (view_plain sid (build_node (objects w)) w s)
          as [Hs' Hv]; [done..|].
        eexists. rewrite view_set_objects, Hv. repeat split; [done..|].
        unfold view. simpl. rewrite Hc. by constructor.
    + edestruct (view_plain sid (goto (Rejected BuildingGraph)) w s)
        as [Hs' Hv]; [done..|].
      eexists. rewrite Hv. repeat split; [done..|by constructor].
    + destruct (isCancellationRequested (get_token (token s) w)) eqn:Hc.
      * rewrite start_resume_cancelled by done.
        edestruct (view_queued sid StopTranscription
                     (open_connection (objects w)) w s)
          as [Hs' Hv]; [done..|].
        eexists. rewrite view_set_objects, Hv. repeat split; [done..|].
        unfold view. simpl. rewrite Hc. by constructor.
      * rewrite start_resume_live by done.
        edestruct (view_listening sid StopTranscription
                     (open_connection (objects w)) w s)
          as [Hs' Hv]; [done..|].
        eexists. rewrite view_set_objects, Hv. repeat split; [done..|].
        unfold view. simpl. rewrite Hc. by constructor.
    + edestruct (view_plain sid (goto StartRejected) w s)
        as [Hs' Hv]; [done..|].
      eexists. rewrite Hv. repeat split; [done..|by constructor].
    + destruct (pc s) eqn:Hpc; try (by apply Hidle).
      * destruct (isCancellationRequested (get_token (token s) w)) eqn:Hc.
        -- rewrite (after_start_cancelled w sid s) by done.
           edestruct (view_plain sid (goto Stopped) w s) as [Hs' Hv]; [done..|].
           eexists. rewrite Hv. repeat split; [done..|].
           unfold view. rewrite Hc. by constructor.
        -- rewrite (after_start_live w sid s) by done.
           assert (Htok : token (begin_recording s) = token s).
           { unfold begin_recording. simpl. by destruct (recordingDone s). }
           edestruct (view_plain sid begin_recording w s) as [Hs' Hv]; [done..|].
           eexists. rewrite Hv.
           split; [done|]. split; [exact Htok|]. split.
           ++ intros _. unfold begin_recording. simpl.
              by destruct (recordingDone s).
           ++ unfold view. rewrite Hc. by constructor.
      * edestruct (view_plain sid (goto (Rejected ConnectingSideChannel)) w s)
          as [Hs' Hv]; [done..|].
        eexists. rewrite Hv. repeat split; [done..|by constructor].
    + assert (Htok : token (if onmessage s then port_onmessage d s else s)
                     = token s).
      { destruct (onmessage s); [|done]. unfold port_onmessage.
        case_decide; [|done]. by destruct d. }
      edestruct (view_plain sid
        (fun s => if onmessage s then port_onmessage d s else s) w s)
        as [Hs' Hv]; [done..|].
      eexists. rewrite Hv.
      split; [done|]. split; [exact Htok|]. split; [|constructor].
      intros Hsp. simpl in Hsp. by rewrite bool_decide_eq_false in Hsp.
    + destruct (timers w) as [|[sid0 cb] ts] eqn:Ht; simplify_eq. simpl in *.
      exists (run_callback cb s). unfold invoke. simpl.
      rewrite list_lookup_alter_eq, Hs. repeat split.
      * apply token_run_callback.
      * apply fired_run_callback.
      * apply fired_run_callback.
      * unfold view. rewrite token_run_callback. simpl.
        rewrite Ht, own_cons_eq. constructor.
  - destruct e as [tid thr|tid|sid' l|sid' tr|sid'|sid'|sid'|sid'|sid'|sid'|sid' d|];
      simpl in Ha; simplify_eq.
    + simpl. unfold cancel.
      destruct (isCancellationRequested (get_token tid w)) eqn:Hc;
        [by apply Hidle|].
      eexists. rewrite sessions_invokes. simpl. rewrite Hs. simpl.
      repeat split;
        [apply token_run_callbacks|apply fired_run_callbacks..|].
      unfold view.
      rewrite token_run_callbacks, get_token_invokes, timers_invokes,
        objects_invokes.
      simpl. destruct (decide (token s = tid)) as [Heq|Hne].
      * rewrite Heq, get_token_set_eq, Hc. simpl. constructor.
      * rewrite get_token_set_ne by done.
        replace (own sid (listeners (get_token tid w))) with (@nil Callback).
        -- by constructor.
        -- symmetry. apply (wf_foreign w Hw). intros s0 Hs0. congruence.
    + simpl. destruct (timers w); [by apply Hidle|done].
Qed.

(** ** Properties that no step of a session destroys *)

Lemma run_from_app w evs evs' :
  run_from w (evs ++ evs') = run_from (run_from w evs) evs'.
Proof. apply foldl_app. Qed.

Lemma run_app evs evs' : run (evs ++ evs') = run_from (run evs) evs'.
Proof. apply run_from_app. Qed.

Lemma session_run (P : View -> Session -> Prop) :
  (forall ph v s v' s',
     in_phase ph (v_cancelled v) (v_listeners v) (v_timers v) s ->
     P v s -> session_step v s v' s' -> P v' s') ->
  forall evs w sid s,
    wf w -> sessions w !! sid = Some s -> P (view w sid s) s ->
    exists s', sessions (run_from w evs) !! sid = Some s'
      /\ token s' = token s /\ P (view (run_from w evs) sid s') s'.
Proof.
  intros Hstable. induction evs as [|e evs IH]; intros w sid s Hw Hs HP.
  - by exists s.
  - destruct (step_session w e sid s Hw Hs) as (s1 & Hs1 & Htok1 & _ & Hstep).
    destruct (wf_phase w Hw sid s Hs) as [ph Hph].
    destruct (IH (step w e) sid s1) as (s' & Hs' & Htok & HP').
    + by apply wf_step.
    + done.
    + exact (Hstable ph (view w sid s) s _ s1 Hph HP Hstep).
    + exists s'. simpl. repeat split; [done|congruence|done].
Qed.

(** Take a step and the phase it starts from apart. *)
Ltac step_cases Hph Hstep :=
  inversion Hstep; subst; clear Hstep; simpl in *;
  phase_cases Hph;
  repeat match goal with
         | H : pc ?s = _, H' : context [pc ?s] |- _ => rewrite H in H'
         end;
  simpl in *; try done;
  try match goal with
      | H : onmessage ?s = _ |- context [onmessage ?s] => rewrite H
      end;
  unfold setup_recording, setup_node, setup_graph, setup_microphone,
         teardown_block, stop_block in *;
  simpl in *; try congruence.

Lemma never_built_stable ph v s v' s' :
  in_phase ph (v_cancelled v) (v_listeners v) (v_timers v) s ->
  never_built v s -> session_step v s v' s' -> never_built v' s'.
Proof.
  intros Hph (Hc & Hlog & Hf & Hd) Hstep. unfold never_built.
  step_cases Hph Hstep; done.
Qed.

Lemma port_onmessage_unheard data s :
  subscribers (onDidTranscribe s) = [] ->
  delivered (port_onmessage data s) = delivered s.
Proof.
  intros Hsub. unfold port_onmessage. case_decide; [|done].
  destruct data; try done. simpl. unfold emitter_fire.
  by rewrite Hsub, app_nil_r.
Qed.

Lemma silenced_stable ds ph v s v' s' :
  in_phase ph (v_cancelled v) (v_listeners v) (v_timers v) s ->
  silenced ds v s -> session_step v s v' s' -> silenced ds v' s'.
Proof.
  intros Hph (Hc & Hd) Hstep. unfold silenced.
  step_cases Hph Hstep.
  all: try done.
  all: split; [done|]; apply port_onmessage_unheard; auto.
Qed.

Lemma pc_run_callback cb s :
  pc s <> Recording -> pc (run_callback cb s) = pc s.
Proof.
  intros Hpc. destruct cb; simpl; try done.
  unfold complete_recordingDone. by case_decide.
Qed.

Lemma pc_run_callbacks cbs s :
  pc s <> Recording ->
  pc (foldl (fun s cb => run_callback cb s) s cbs) = pc s.
Proof.
  revert s. induction cbs as [|cb cbs IH]; intros s Hpc; [done|].
  simpl. rewrite IH; rewrite pc_run_callback; done.
Qed.

Lemma rejected_at_stable stage ph v s v' s' :
  in_phase ph (v_cancelled v) (v_listeners v) (v_timers v) s ->
  rejected_at stage v s -> session_step v s v' s' -> rejected_at stage v' s'.
Proof.
  intros Hph Hpc Hstep. unfold rejected_at in *.
  inversion Hstep; subst; clear Hstep; simpl; try done; try congruence.
  - destruct (onmessage s); [|done]. unfold port_onmessage.
    case_decide; [|done]. by destruct data.
  - rewrite pc_run_callbacks; congruence.
  - rewrite pc_run_callback; congruence.
Qed.

(** ** Teardown *)

Lemma filter_TrackStop (f : Action -> bool) (b : bool) tracks :
  (forall t, f (TrackStop t) = b) ->
  List.filter f (map TrackStop tracks) = if b then map TrackStop tracks else [].
Proof.
  intros Hf. induction tracks as [|t tracks IH]; simpl.
  - by destruct b.
  - rewrite Hf, IH. by destruct b.
Qed.

(** Evaluate a filter over the log of a phase. *)
Ltac filter_log :=
  cbn [phase_log phase_cancelled] in *;
  unfold teardowns, releases, occurrences,
         setup_recording, setup_node, setup_graph, setup_microphone,
         teardown_actions, teardown_block, stop_block in *;
  repeat (simpl;
          rewrite ?List.filter_app,
            ?(filter_TrackStop _ true) by done;
          rewrite ?(filter_TrackStop _ false) by done).

Lemma reachable_phase evs sid s :
  session_of sid (run evs) = Some s ->
  exists ph, phase_of (run evs) sid s ph.
Proof. intros Hs. by apply (wf_phase _ (wf_run evs)). Qed.

Ltac elem_of_log :=
  repeat first [apply list_elem_of_here | apply list_elem_of_further].

(** Refute [a ∈ l] for a short explicit [l]. *)
Ltac not_in_log H :=
  repeat (apply elem_of_cons in H as [H|H]; [discriminate H|]);
  by apply elem_of_nil in H.

(** Decide membership in a log that is given up to its track stops. *)
Ltac solve_disj :=
  first [reflexivity | left; reflexivity | right; solve_disj].

Ltac log_mem :=
  unfold setup_recording, setup_node, setup_graph, setup_microphone,
         teardown_block, stop_block in *;
  repeat match goal with
         | H : _ ∈ _ |- _ =>
             rewrite ?elem_of_cons, ?elem_of_app, ?list_elem_of_fmap,
               ?elem_of_nil in H; revert H
         end;
  rewrite ?elem_of_cons, ?elem_of_app, ?list_elem_of_fmap, ?elem_of_nil;
  intros;
  repeat match goal with
         | H : _ \/ _ |- _ => destruct H
         | H : _ /\ _ |- _ => destruct H
         | H : exists _, _ |- _ => destruct H
         | H : False |- _ => destruct H
         end;
  try discriminate; solve_disj.

(** C1, as the code has it.  In every reachable world the log of a session
    holds the teardown actions (stop every track of the stream, disconnect
    the source, close the context) either not at all or as one pass in that
    order, so none of them runs twice.  They have run exactly once as soon as
    the token is cancelled and the audio context had been created, that is,
    when cancellation came after the microphone promise was fulfilled with
    the flag clear.  While no audio context exists there is no source to
    disconnect and no context to close, and these two run zero times. *)
Theorem teardown_at_most_once evs sid s :
  session_of sid (run evs) = Some s ->
  (teardowns (log s) = []
   \/ teardowns (log s) = teardown_actions (microphoneDevice s))
  /\ occurrences SourceDisconnect (log s) <= 1
  /\ occurrences ContextClose (log s) <= 1
  /\ (cancelled sid (run evs) = true -> NewAudioContext ∈ log s ->
      teardowns (log s) = teardown_actions (microphoneDevice s)
      /\ occurrences SourceDisconnect (log s) = 1
      /\ occurrences ContextClose (log s) = 1)
  /\ (NewAudioContext ∉ log s ->
      occurrences SourceDisconnect (log s) = 0
      /\ occurrences ContextClose (log s) = 0).
Proof.
  intros Hs. destruct (reachable_phase evs sid s Hs) as [ph Hph].
  unfold cancelled. unfold session_of in Hs. rewrite Hs.
  destruct Hph as [Hc _ _ _ _ _ _ Hlog _ _ _]. rewrite Hc, Hlog.
  destruct ph; filter_log; rewrite ?app_nil_r.
  all: repeat apply conj; intros; repeat apply conj; auto; try lia; try done.
  all: try (exfalso; match goal with H : _ ∉ _ |- _ => apply H; elem_of_log end).
  all: try (exfalso; match goal with H : _ ∈ _ |- _ => not_in_log H end).
Qed.

(** C1 fails as stated.  The token is cancelled while the microphone promise
    is pending; the promise is then fulfilled with a stream of two tracks.
    The callback returns at line 111: the session is over, the token is
    cancelled, and no teardown action has run. *)
Lemma teardown_skipped_when_cancelled_early :
  let w := run [Transcribe 0 false; Cancel 0; MicrophoneResolved 0 [1; 2]] in
  cancelled 0 w = true
  /\ pc <$> session_of 0 w = Some Stopped
  /\ microphoneDevice <$> session_of 0 w = Some [1; 2]
  /\ teardowns ∘ log <$> session_of 0 w = Some [].
Proof. vm_compute. by repeat split. Qed.

(** Cancelled while the module is loading: one pass over the two tracks. *)
Lemma teardown_at_most_once_witness :
  exists s,
    session_of 0 (run [Transcribe 0 false; MicrophoneResolved 0 [1; 2]; Cancel 0])
    = Some s
    /\ teardowns (log s)
       = [TrackStop 1; TrackStop 2; SourceDisconnect; ContextClose].
Proof.
  eexists. split; [vm_compute; reflexivity|].
  edestruct (teardown_at_most_once
               [Transcribe 0 false; MicrophoneResolved 0 [1; 2]; Cancel 0] 0)
    as (_ & _ & _ & H & _); [vm_compute; reflexivity|].
  destruct H as (H & _); [vm_compute; reflexivity|simpl; elem_of_log|exact H].
Defined.




(** ** Cancellation before and after the setup *)

Lemma transcribe_session tid throws w :
  sessions (transcribe tid throws w).2 !! length (sessions w)
  = Some (callback_begin throws (session_new tid (objects w))).
Proof.
  rewrite transcribe_eq. simpl.
  rewrite list_lookup_alter_eq.
  replace (sessions (onCancellationRequested tid
             (length (sessions w), DisposeEmitter)
             (mkWorld (tokens w) (sessions w ++ [session_new tid (objects w)])
                      (timers w) (S (objects w)))))
    with (sessions w ++ [session_new tid (objects w)])
    by (unfold onCancellationRequested; by destruct (isCancellationRequested _)).
  rewrite lookup_app_r by lia.
  by replace (length (sessions w) - length (sessions w)) with 0 by lia.
Qed.

Lemma transcribe_flag tid throws w t :
  isCancellationRequested (get_token t (transcribe tid throws w).2)
  = isCancellationRequested (get_token t w).
Proof.
  apply (loc_flag _ _ _ (step_local w (Transcribe tid throws) _ eq_refl)).
Qed.

Lemma cancel_flag tid w :
  isCancellationRequested (get_token tid (cancel tid w)) = true.
Proof.
  unfold cancel.
  destruct (isCancellationRequested (get_token tid w)) eqn:Hc; [done|].
  by rewrite get_token_invokes, get_token_set_eq.
Qed.

Lemma cancel_session tid w sid s :
  sessions w !! sid = Some s ->
  exists cbs,
    sessions (cancel tid w) !! sid
    = Some (foldl (fun s cb => run_callback cb s) s cbs).
Proof.
  intros Hs. unfold cancel.
  destruct (isCancellationRequested (get_token tid w)).
  - by exists [].
  - eexists. rewrite sessions_invokes. simpl. by rewrite Hs.
Qed.

(** A session that is [never_built] is waiting for the microphone, stopped,
    or rejected there. *)
Lemma never_built_pc w sid s :
  wf w -> sessions w !! sid = Some s -> never_built (view w sid s) s ->
  pc s = AwaitMicrophone \/ pc s = Stopped
  \/ pc s = Rejected AcquiringMicrophone.
Proof.
  intros Hw Hs (Hc & Hlog & _). destruct (wf_phase w Hw sid s Hs) as [ph Hph].
  simpl in Hc. rewrite Hc in Hph.
  phase_cases Hph;
    unfold setup_recording, setup_node, setup_graph, setup_microphone in *;
    simpl in *; try congruence.
  all: destruct (pc s) as [| | | | | | |[]]; try done; auto.
Qed.

(** A cancelled session that waits for the microphone is [never_built]. *)
Lemma cancelled_waiting_never_built w sid s :
  wf w -> sessions w !! sid = Some s ->
  isCancellationRequested (get_token (token s) w) = true ->
  pc s = AwaitMicrophone ->
  never_built (view w sid s) s.
Proof.
  intros Hw Hs Hc Hpc. destruct (wf_phase w Hw sid s Hs) as [ph Hph].
  unfold never_built. simpl. rewrite Hc in *.
  phase_cases Hph; rewrite Hpc in *; try done.
  all: repeat split; try done; by apply Hph_fired.
Qed.

Lemma setup_microphone_builds_nothing a :
  a ∈ setup_microphone -> is_construction a = false.
Proof.
  unfold setup_microphone. intros Ha.
  apply elem_of_cons in Ha as [->|Ha]; [done|].
  apply elem_of_cons in Ha as [->|Ha]; [done|].
  by apply elem_of_nil in Ha.
Qed.

(** C2, as the code has it.  [transcribe] called with a token that is already
    cancelled returns the event without throwing.  The microphone is
    requested all the same, as the first cancellation check follows the
    request; from then on and whatever happens, the session builds nothing
    (no audio context, no graph, no worklet, no connection), no fragment is
    fired or delivered, and the session waits for the microphone, has
    stopped, or was rejected there; it stops as soon as the microphone
    promise is fulfilled. *)
Theorem precancelled_transcribe evs tid throws evs' :
  isCancellationRequested (get_token tid (run evs)) = true ->
  let sid := length (sessions (run evs)) in
  (transcribe tid throws (run evs)).1 = Normal sid
  /\ exists s,
       session_of sid (run (evs ++ Transcribe tid throws :: evs')) = Some s
       /\ token s = tid
       /\ GetUserMedia ∈ log s
       /\ (forall a, a ∈ log s -> is_construction a = false)
       /\ fired s = [] /\ delivered s = []
       /\ (pc s = AwaitMicrophone \/ pc s = Stopped
           \/ pc s = Rejected AcquiringMicrophone)
       /\ (pc s = AwaitMicrophone -> forall tracks,
           pc <$> session_of sid
                    (run (evs ++ Transcribe tid throws :: evs'
                              ++ [MicrophoneResolved sid tracks]))
           = Some Stopped).
Proof.
  intros Hc sid. split; [by rewrite transcribe_eq|].
  rewrite run_app. unfold session_of.
  change (run_from (run evs) (Transcribe tid throws :: evs'))
    with (run_from (transcribe tid throws (run evs)).2 evs').
  set (w1 := (transcribe tid throws (run evs)).2).
  assert (Hw1 : wf w1) by apply wf_transcribe, wf_run.
  assert (Hs1 : sessions w1 !! sid
                = Some (callback_begin throws
                          (session_new tid (objects (run evs)))))
    by apply transcribe_session.
  assert (Htok1 : token (callback_begin throws
                           (session_new tid (objects (run evs)))) = tid)
    by (by destruct throws).
  destruct (session_run never_built never_built_stable evs' w1 sid _ Hw1 Hs1)
    as (s & Hs & Htok & Hnb).
  { unfold never_built, view. simpl. rewrite Htok1.
    unfold w1. rewrite transcribe_flag, Hc. by destruct throws. }
  exists s. pose proof Hnb as (Hc' & Hlog & Hf & Hd).
  assert (Hwf : wf (run_from w1 evs')) by by apply wf_run_from.
  repeat apply conj; try done; try congruence.
  - rewrite Hlog. unfold setup_microphone. elem_of_log.
  - intros a Ha. rewrite Hlog in Ha. by apply setup_microphone_builds_nothing.
  - by eapply never_built_pc.
  - intros Hpc tracks.
    replace (evs ++ Transcribe tid throws :: evs'
                 ++ [MicrophoneResolved sid tracks])
      with ((evs ++ Transcribe tid throws :: evs')
              ++ [MicrophoneResolved sid tracks])
      by (by rewrite <- app_assoc).
    rewrite (run_app (evs ++ _)), run_app.
    change (run_from (run evs) (Transcribe tid throws :: evs'))
      with (run_from w1 evs').
    change (run_from ?w [?e]) with (step w e).
    cbn [step]. unfold resume. rewrite Hs, decide_True by done.
    rewrite after_getUserMedia_cancelled by done.
    cbn [sessions set_objects]. by rewrite sessions_upd_eq, Hs.
Qed.

(** C2 fails as stated: with a token cancelled beforehand, [transcribe] still
    requests the microphone, and the stream it is then given is kept. *)
Lemma microphone_requested_when_precancelled :
  let w := run [Cancel 0; Transcribe 0 false] in
  cancelled 0 w = true
  /\ log <$> session_of 0 w
     = Some [ProgressReport "Getting microphone ready..."; GetUserMedia]
  /\ microphoneDevice <$> session_of 0 (step w (MicrophoneResolved 0 [1; 2]))
     = Some [1; 2].
Proof. vm_compute. by repeat split. Qed.

(** Token 0 is cancelled, then handed to [transcribe]; the microphone promise
    is fulfilled and the queued disposal runs. *)
Lemma precancelled_transcribe_witness :
  exists s,
    session_of 0 (run ([Cancel 0] ++ Transcribe 0 false
                          :: [MicrophoneResolved 0 [1; 2]; Timeout])) = Some s
    /\ fired s = [] /\ delivered s = [].
Proof.
  edestruct (precancelled_transcribe [Cancel 0] 0 false
               [MicrophoneResolved 0 [1; 2]; Timeout])
    as (_ & s & Hs & _ & _ & _ & Hf & Hd & _); [vm_compute; reflexivity|].
  exists s. split; [exact Hs|by split].
Defined.

(** C6.  If the token of a session is cancelled while the session waits for
    the microphone, then whatever happens afterwards the session performs
    nothing that builds the audio graph or opens the side channel. *)
Theorem cancel_before_microphone evs sid s evs' :
  session_of sid (run evs) = Some s -> pc s = AwaitMicrophone ->
  exists s',
    session_of sid (run (evs ++ Cancel (token s) :: evs')) = Some s'
    /\ forall a, a ∈ log s' -> is_construction a = false.
Proof.
  intros Hs Hpc. unfold session_of in *. rewrite run_app. simpl.
  set (w1 := cancel (token s) (run evs)).
  assert (Hw1 : wf w1) by apply wf_cancel, wf_run.
  destruct (cancel_session (token s) (run evs) sid s Hs) as (cbs & Hs1).
  fold w1 in Hs1.
  destruct (session_run never_built never_built_stable evs' w1 sid _ Hw1 Hs1)
    as (s' & Hs' & _ & (_ & Hlog & _)).
  { apply cancelled_waiting_never_built; try done.
    - rewrite token_run_callbacks. apply cancel_flag.
    - rewrite pc_run_callbacks; congruence. }
  exists s'. split; [done|].
  intros a Ha. rewrite Hlog in Ha. by apply setup_microphone_builds_nothing.
Qed.

(** Cancelled while waiting for the microphone; the environment then
    delivers everything a full setup would need. *)
Lemma cancel_before_microphone_witness :
  exists s',
    session_of 0 (run ([Transcribe 0 false] ++ Cancel 0
                         :: [MicrophoneResolved 0 [1; 2]; ModuleLoaded 0;
                             ConnectionOpened 0; StartReturned 0])) = Some s'
    /\ forall a, a ∈ log s' -> is_construction a = false.
Proof.
  edestruct (cancel_before_microphone [Transcribe 0 false] 0
               (callback_begin false (session_new 0 0))
               [MicrophoneResolved 0 [1; 2]; ModuleLoaded 0; ConnectionOpened 0;
                StartReturned 0])
    as (s' & Hs' & Hlog); [vm_compute; reflexivity|reflexivity|].
  exists s'. by split.
Defined.

(** C4.  Once the token of a session is cancelled, the subscribers of its
    event have received everything they will ever receive: whatever happens
    afterwards, nothing more is delivered. *)
Theorem no_fragment_after_cancellation evs sid s evs' :
  session_of sid (run evs) = Some s -> cancelled sid (run evs) = true ->
  exists s',
    session_of sid (run (evs ++ evs')) = Some s'
    /\ delivered s' = delivered s.
Proof.
  intros Hs Hc. unfold session_of, cancelled in *. rewrite Hs in Hc.
  rewrite run_app.
  destruct (session_run (silenced (delivered s)) (silenced_stable (delivered s))
              evs' (run evs) sid s (wf_run evs) Hs)
    as (s' & Hs' & _ & (_ & Hd)); [by split|].
  by exists s'.
Qed.

(** One fragment before the cancellation, two messages and a late subscriber
    after it. *)
Lemma no_fragment_after_cancellation_witness :
  exists s',
    session_of 0 (run ([Transcribe 0 false; Subscribe 0 7;
                        MicrophoneResolved 0 [1; 2]; ModuleLoaded 0;
                        ConnectionOpened 0; StartReturned 0;
                PortMessage 0 (DString "hello");
                        Cancel 0]
                       ++ [PortMessage 0 (DString "world"); Subscribe 0 8;
                           PortMessage 0 (DString "again")])) = Some s'
    /\ delivered s' = [(7, "hello")].
Proof.
  edestruct (no_fragment_after_cancellation
               [Transcribe 0 false; Subscribe 0 7;
                MicrophoneResolved 0 [1; 2]; ModuleLoaded 0;
                ConnectionOpened 0; StartReturned 0;
                PortMessage 0 (DString "hello");
                Cancel 0] 0)
    as (s' & Hs' & Hd); [vm_compute; reflexivity|vm_compute; reflexivity|].
  exists s'. split; [exact Hs'|exact Hd].
Defined.

(** ** Checks on resumption *)

(** C3, as the code has it.  When the microphone promise or the module
    promise of a session is fulfilled while its token is cancelled, the
    callback returns at once: the session is [Stopped], and nothing is added
    to its log.  When the raw connection is opened, [start] runs to its end
    whatever the flag says: it keeps the connection, registers its listener
    (queued for a later turn when the token is already cancelled) and posts
    the start command.  The flag is read when [start] has returned and the
    callback of [doTranscribe] resumes: if it is set by then, whether it was
    set before the connection was opened or between the end of [start] and
    the resumption, the session is [Stopped] without connecting the
    microphone source and without the recording report; if it is clear, both
    are performed. *)
Theorem cancellation_checked_on_resume w sid s :
  sessions w !! sid = Some s ->
  let c := isCancellationRequested (get_token (token s) w) in
  (c = true -> pc s = AwaitMicrophone -> forall tracks,
     session_of sid (step w (MicrophoneResolved sid tracks))
     = Some (abort_microphone tracks (objects w) s)
     /\ pc (abort_microphone tracks (objects w) s) = Stopped
     /\ log (abort_microphone tracks (objects w) s) = log s)
  /\ (c = true -> pc s = AwaitModule ->
      session_of sid (step w (ModuleLoaded sid)) = Some (goto Stopped s))
  /\ (pc s = AwaitConnection ->
      session_of sid (step w (ConnectionOpened sid))
      = Some (open_connection (objects w) s)
      /\ pc (open_connection (objects w) s) = StartFulfilled
      /\ log (open_connection (objects w) s) = log s ++ [PostStart]
      /\ (c = true ->
          timers (step w (ConnectionOpened sid))
          = timers w ++ [(sid, StopTranscription)])
      /\ (c = false ->
          listeners (get_token (token s) (step w (ConnectionOpened sid)))
          = listeners (get_token (token s) w) ++ [(sid, StopTranscription)]))
  /\ (c = true -> pc s = StartFulfilled ->
      session_of sid (step w (StartReturned sid)) = Some (goto Stopped s))
  /\ (c = false -> pc s = StartFulfilled ->
      session_of sid (step w (StartReturned sid)) = Some (begin_recording s)
      /\ log (begin_recording s)
         = log s ++ [SourceConnect;
                     ProgressReport "Recording from microphone..."]).
Proof.
  intros Hs c. unfold session_of. repeat apply conj.
  - intros Hc Hpc tracks. cbn [step]. unfold resume.
    rewrite Hs, decide_True by done.
    rewrite after_getUserMedia_cancelled by done.
    cbn [sessions set_objects]. by rewrite sessions_upd_eq, Hs.
  - intros Hc Hpc. cbn [step]. unfold resume.
    rewrite Hs, decide_True by done.
    rewrite (after_addModule_cancelled w sid s) by done.
    by rewrite sessions_upd_eq, Hs.
  - intros Hpc. cbn [step]. unfold resume.
    rewrite Hs, decide_True by done.
    destruct (isCancellationRequested (get_token (token s) w)) eqn:Hc;
      subst c.
    + rewrite start_resume_cancelled by done.
      cbn [sessions set_objects timers].
      rewrite sessions_upd_eq. simpl. rewrite Hs. by list_eq.
    + rewrite start_resume_live by done.
      cbn [sessions set_objects]. rewrite sessions_upd_eq. simpl. rewrite Hs.
      repeat split; [list_eq..|done|].
      intros _.
      change (get_token (token s) (set_objects ?n ?x)) with (get_token (token s) x).
      by rewrite get_token_upd, get_token_set_eq.
  - intros Hc Hpc. cbn [step]. rewrite Hs, Hpc.
    rewrite (after_start_cancelled w sid s) by done.
    by rewrite sessions_upd_eq, Hs.
  - intros Hc Hpc. cbn [step]. rewrite Hs, Hpc.
    rewrite (after_start_live w sid s) by done.
    rewrite sessions_upd_eq, Hs. split; [done|].
    unfold begin_recording. simpl. destruct (recordingDone s); by list_eq.
Qed.

(** C3 fails as stated.  The token is cancelled while the raw connection is
    being opened.  When the connection arrives, the flag is set, and yet the
    log of the session grows by the start command: the connection is handed
    to the worklet before the token is looked at. *)
Lemma start_command_posted_after_cancellation :
  let w := run [Transcribe 0 false; MicrophoneResolved 0 [1; 2];
                ModuleLoaded 0; Cancel 0] in
  cancelled 0 w = true
  /\ pc <$> session_of 0 w = Some AwaitConnection
  /\ log <$> session_of 0 (step w (ConnectionOpened 0))
     = (fun s => log s ++ [PostStart]) <$> session_of 0 w.
Proof. vm_compute. by repeat split. Qed.

(** Cancelled between the end of [start] and the resumption of the callback:
    the three listeners have run, and line 143 ends the session. *)
Lemma cancellation_checked_on_resume_witness :
  let w := run [Transcribe 0 false; MicrophoneResolved 0 [1; 2];
                ModuleLoaded 0; ConnectionOpened 0; Cancel 0] in
  pc <$> session_of 0 (step w (StartReturned 0)) = Some Stopped
  /\ log <$> session_of 0 (step w (StartReturned 0)) = log <$> session_of 0 w.
Proof.
  intros w.
  edestruct (cancellation_checked_on_resume w 0) as (_ & _ & _ & H & _);
    [vm_compute; reflexivity|].
  rewrite H; [|vm_compute; reflexivity..].
  split; vm_compute; reflexivity.
Defined.

(** ** The relay *)

Lemma fragments_cons data msgs :
  fragments (data :: msgs)
  = match data with DString f => [f] | _ => [] end ++ fragments msgs.
Proof. reflexivity. Qed.

(** C5.  The port handler of a session re-emits a message exactly when its
    payload is a string, and then unchanged.  A run of messages therefore
    fires the string payloads among them in arrival order and nothing else,
    and each is delivered to the subscribers of the session's event. *)
Theorem fragments_relayed_in_order w sid s msgs :
  sessions w !! sid = Some s -> onmessage s = true ->
  (forall data,
     port_onmessage data s
     = match data with DString fragment => fire fragment s | _ => s end)
  /\ exists s',
       sessions (run_from w (map (PortMessage sid) msgs)) !! sid = Some s'
       /\ fired s' = fired s ++ fragments msgs
       /\ delivered s'
          = delivered s
            ++ deliveries (subscribers (onDidTranscribe s)) (fragments msgs)
       /\ log s' = log s /\ pc s' = pc s
       /\ onDidTranscribe s' = onDidTranscribe s.
Proof.
  intros Hs Hon. split.
  { intros data. unfold port_onmessage. by destruct data. }
  revert w s Hs Hon. induction msgs as [|data msgs IH]; intros w s Hs Hon.
  - exists s. simpl. by rewrite !app_nil_r.
  - cbn [map run_from foldl].
    destruct (IH (step w (PortMessage sid data))
                 (if onmessage s then port_onmessage data s else s))
      as (s' & Hs' & Hf & Hd & Hl & Hp & He).
    + cbn [step]. by rewrite sessions_upd_eq, Hs.
    + rewrite Hon. unfold port_onmessage. case_decide; [|done]. by destruct data.
    + exists s'. split; [exact Hs'|].
      rewrite Hf, Hd, Hl, Hp, He, Hon, fragments_cons.
      unfold port_onmessage, deliveries, emitter_fire.
      destruct data; simpl; rewrite <- ?app_assoc; done.
Qed.

(** The worklet posts "hello", the number 3 and "world" to a recording
    session with one subscriber. *)
Lemma fragments_relayed_in_order_witness :
  let w := run [Transcribe 0 false; Subscribe 0 7; MicrophoneResolved 0 [1; 2];
                ModuleLoaded 0; ConnectionOpened 0; StartReturned 0] in
  exists s',
    sessions (run_from w [PortMessage 0 (DString "hello");
                          PortMessage 0 (DNumber 3);
                          PortMessage 0 (DString "world")]) !! 0 = Some s'
    /\ delivered s' = [(7, "hello"); (7, "world")].
Proof.
  intros w.
  edestruct (fragments_relayed_in_order w 0)
    with (msgs := [DString "hello"; DNumber 3; DString "world"])
    as (_ & s' & Hs' & _ & Hd & _);
    [vm_compute; reflexivity|vm_compute; reflexivity|].
  exists s'. split; [exact Hs'|exact Hd].
Defined.

(** A session that a step creates is the one [transcribe] has just set up. *)
Lemma step_new_session w e sid s' :
  sessions w !! sid = None -> sessions (step w e) !! sid = Some s' ->
  exists tid throws,
    e = Transcribe tid throws /\ sid = length (sessions w)
    /\ s' = callback_begin throws (session_new tid (objects w)).
Proof.
  intros Hs Hs'. destruct (actor w e) as [sid0|] eqn:Ha.
  - destruct (decide (sid = sid0)) as [<-|Hne].
    2:{ rewrite (loc_sessions _ _ _ (step_local w e sid0 Ha)) in Hs' by done.
        congruence. }
    destruct e as [tid thr|tid|sid' l|sid' tr|sid'|sid'|sid'|sid'|sid'|sid'|sid' d|];
      simpl in Ha; simplify_eq; cbn [step] in Hs'; unfold resume in Hs';
      rewrite ?Hs in Hs'; try congruence.
    + rewrite transcribe_session in Hs'. simplify_eq. by exists tid, thr.
    + rewrite sessions_upd_eq, Hs in Hs'. done.
    + rewrite sessions_upd_eq, Hs in Hs'. done.
    + destruct (timers w) as [|[sid0 cb] ts]; simpl in Ha; simplify_eq.
      simpl in Hs'. unfold invoke in Hs'. simpl in Hs'.
      rewrite list_lookup_alter_eq, Hs in Hs'. done.
  - destruct e; simpl in Ha; simplify_eq.
    + simpl in Hs'. unfold cancel in Hs'.
      destruct (isCancellationRequested _); [congruence|].
      rewrite sessions_invokes in Hs'. simpl in Hs'. by rewrite Hs in Hs'.
    + simpl in Hs'. destruct (timers w); [congruence|done].
Qed.









(** ** Rejected setups *)








(** ** Objects *)

Lemma resources_run_callback cb s : resources (run_callback cb s) = resources s.
Proof.
  destruct cb; simpl; try done.
  unfold complete_recordingDone. by case_decide.
Qed.

Lemma resources_run_callbacks cbs s :
  resources (foldl (fun s cb => run_callback cb s) s cbs) = resources s.
Proof.
  revert s. induction cbs as [|cb cbs IH]; intros s; [done|].
  simpl. by rewrite IH, resources_run_callback.
Qed.

Ltac in_range :=
  let Hin := fresh "Hin" in
  intros ? Hin;
  repeat (apply elem_of_cons in Hin as [Hin|Hin]; [simpl; lia|]);
  by apply elem_of_nil in Hin.

Ltac not_in_nat :=
  let Hin := fresh "Hin" in
  intros Hin;
  repeat (apply elem_of_cons in Hin as [Hin|Hin]; [lia|]);
  by apply elem_of_nil in Hin.

Ltac nodup_nat :=
  repeat (apply NoDup_cons; split; [not_in_nat|]); apply NoDup_nil_2.

(** A step of a session keeps the objects of the session and adds the ones
    it creates, which are new. *)
Lemma session_step_handles v s v' s' :
  session_step v s v' s' ->
  exists ids,
    handles s' = handles s ++ ids
    /\ NoDup ids
    /\ (forall id, id ∈ ids -> v_objects v <= id < v_objects v').
Proof.
  intros Hstep.
  inversion Hstep; subst; clear Hstep;
    unfold handles, abort_microphone, build_graph, build_node,
           open_connection, begin_recording;
    simpl; rewrite ?fmap_app, <- ?app_assoc; simpl.
  all: try (exists []; rewrite app_nil_r;
            split; [done|split; [apply NoDup_nil_2|in_range]]).
  - exists []. rewrite app_nil_r.
    split; [|split; [apply NoDup_nil_2|in_range]].
    destruct (onmessage s); [|done]. unfold port_onmessage.
    case_decide; [|done]. by destruct data.
  - exists []. rewrite app_nil_r, resources_run_callbacks.
    split; [done|split; [apply NoDup_nil_2|in_range]].
  - exists []. rewrite app_nil_r, resources_run_callback.
    split; [done|split; [apply NoDup_nil_2|in_range]].
  - eexists. split; [reflexivity|split; [nodup_nat|in_range]].
  - eexists. split; [reflexivity|split; [nodup_nat|in_range]].
  - eexists. split; [reflexivity|split; [nodup_nat|in_range]].
  - eexists. split; [reflexivity|split; [nodup_nat|in_range]].
  - eexists. split; [reflexivity|split; [nodup_nat|in_range]].
  - exists []. rewrite app_nil_r.
    split; [|split; [apply NoDup_nil_2|in_range]].
    by destruct (recordingDone s).
Qed.

Lemma objects_step_idle w e : actor w e = None -> objects (step w e) = objects w.
Proof.
  destruct e; simpl; try done.
  - intros _. unfold cancel. destruct (isCancellationRequested _); [done|].
    by rewrite objects_invokes.
  - by destruct (timers w).
Qed.

(** The objects of a session after a step of the world: those it held, and
    new ones if the step ran code of the session. *)
Lemma step_handles w e sid s' :
  wf w -> sessions (step w e) !! sid = Some s' ->
  exists ids,
    handles s' = default [] (handles <$> sessions w !! sid) ++ ids
    /\ NoDup ids
    /\ (forall id, id ∈ ids -> objects w <= id < objects (step w e))
    /\ (ids <> [] -> actor w e = Some sid).
Proof.
  intros Hw Hs'. destruct (sessions w !! sid) as [s|] eqn:Hs.
  - destruct (step_session w e sid s Hw Hs) as (s1 & Hs1 & _ & _ & Hstep).
    assert (s1 = s') as -> by congruence.
    destruct (session_step_handles _ _ _ _ Hstep) as (ids & Hh & Hnd & Hb).
    exists ids. simpl. repeat split; try done; try (by apply Hb).
    intros Hne. destruct (actor w e) as [a|] eqn:Ha.
    + destruct (decide (sid = a)) as [->|Hna]; [done|].
      exfalso.
      rewrite (loc_sessions _ _ _ (step_local w e a Ha)) in Hs' by done.
      assert (s' = s) as -> by congruence.
      apply Hne, (app_inv_head (handles s)). by rewrite <- Hh, app_nil_r.
    + exfalso. destruct ids as [|id ids]; [done|].
      pose proof (Hb id (list_elem_of_here _ _)) as Hid. simpl in Hid.
      rewrite objects_step_idle in Hid by done. lia.
  - destruct (step_new_session w e sid s' Hs Hs') as (tid & thr & -> & -> & ->).
    exists [objects w]. simpl. repeat split.
    + by destruct thr.
    + nodup_nat.
    + apply list_elem_of_singleton in H as ->. lia.
    + apply list_elem_of_singleton in H as ->.
      rewrite transcribe_eq. simpl. rewrite objects_onCancellationRequested.
      simpl. lia.
Qed.

Lemma heap_ok_init : heap_ok world_init.
Proof. by constructor. Qed.

Lemma heap_ok_step w e : wf w -> heap_ok w -> heap_ok (step w e).
Proof.
  intros Hw [Hb Ho Hn].
  assert (Hold : forall sid id,
            id ∈ default [] (handles <$> sessions w !! sid) ->
            id < objects w
            /\ exists s, sessions w !! sid = Some s /\ id ∈ handles s).
  { intros sid id. destruct (sessions w !! sid) as [s|] eqn:E; simpl.
    - intros H. split; [by eapply Hb|by eexists].
    - intros H. by apply elem_of_nil in H. }
  constructor.
  - intros sid s' id Hs' Hin.
    destruct (step_handles w e sid s' Hw Hs') as (ids & Hh & _ & Hr & _).
    rewrite Hh in Hin. apply elem_of_app in Hin as [Hin|Hin].
    + destruct (Hold _ _ Hin) as [? _]. pose proof (objects_step w e). lia.
    + apply Hr in Hin. lia.
  - intros a b sa sb id Ha Hb' Hia Hib.
    destruct (step_handles w e a sa Hw Ha) as (ia & Hha & _ & Hra & Haa).
    destruct (step_handles w e b sb Hw Hb') as (ib & Hhb & _ & Hrb & Hab).
    rewrite Hha in Hia. rewrite Hhb in Hib.
    apply elem_of_app in Hia as [Hia|Hia];
      apply elem_of_app in Hib as [Hib|Hib].
    + destruct (Hold _ _ Hia) as [_ (s1 & Hs1 & Hi1)].
      destruct (Hold _ _ Hib) as [_ (s2 & Hs2 & Hi2)]. by eapply Ho.
    + destruct (Hold _ _ Hia) as [? _]. apply Hrb in Hib. lia.
    + destruct (Hold _ _ Hib) as [? _]. apply Hra in Hia. lia.
    + assert (ia <> []) as Hna by (intros ->; by apply elem_of_nil in Hia).
      assert (ib <> []) as Hnb by (intros ->; by apply elem_of_nil in Hib).
      specialize (Haa Hna). specialize (Hab Hnb). congruence.
  - intros sid s' Hs'.
    destruct (step_handles w e sid s' Hw Hs') as (ids & Hh & Hnd & Hr & _).
    rewrite Hh. apply NoDup_app. split; [|split; [|done]].
    + destruct (sessions w !! sid) as [s|] eqn:E; simpl;
        [by eapply Hn|apply NoDup_nil_2].
    + intros id Hin Hin'. destruct (Hold _ _ Hin) as [? _].
      apply Hr in Hin'. lia.
Qed.

Lemma heap_ok_run evs : heap_ok (run evs).
Proof.
  unfold run. generalize wf_init heap_ok_init. generalize world_init.
  induction evs as [|e evs IH]; intros w Hw Hh; [done|].
  simpl. apply IH; [by apply wf_step|by apply heap_ok_step].
Qed.

(** Every track of a session is a track of a stream that the session holds. *)
Lemma tracks_of_handles s x : x ∈ tracks_of s -> x.1 ∈ handles s.
Proof.
  unfold tracks_of, handles.
  induction (resources s) as [|r rs IH]; simpl.
  - intros H. by apply elem_of_nil in H.
  - intros H. apply elem_of_app in H as [H|H].
    + case_decide; [|by apply elem_of_nil in H].
      apply list_elem_of_fmap in H as (t & -> & _). apply list_elem_of_here.
    + apply list_elem_of_further. by apply IH.
Qed.

Lemma holds_own_objects_reachable w sid s :
  wf w -> sessions w !! sid = Some s -> holds_own_objects s.
Proof.
  intros Hw Hs. destruct (wf_phase w Hw sid s Hs) as [ph Hph].
  unfold holds_own_objects, kinds, all_resources.
  phase_cases Hph; rewrite Hph_log.
  all: destruct (pc s) as [| | | | | | |[]] eqn:Hpc; try done;
    rewrite Hph_kinds.
  all: repeat apply conj; try done; try (by eexists).
  all: intros Hin;
    first [solve [split; elem_of_log] | solve [elem_of_log] | exfalso; log_mem].
Qed.

(** ** Independent sessions *)

(** The code of a session registers listeners on the token of that session
    and on no other. *)
Lemma step_token_other w e a sa tid :
  actor w e = Some a -> sessions w !! a = Some sa -> tid <> token sa ->
  get_token tid (step w e) = get_token tid w.
Proof.
  intros Ha Hs Hne.
  destruct e as [t thr|t|sid' l|sid' tr|sid'|sid'|sid'|sid'|sid'|sid'|sid' d|];
    simpl in Ha; simplify_eq; cbn [step]; unfold resume; rewrite ?Hs;
    try case_decide; try done.
  - apply lookup_lt_Some in Hs. lia.
  - destruct (isCancellationRequested (get_token (token sa) w)) eqn:Hc.
    + by rewrite after_getUserMedia_cancelled.
    + rewrite after_getUserMedia_live by done.
      change (get_token tid (set_objects ?n ?x)) with (get_token tid x).
      by rewrite get_token_upd, get_token_set_ne.
  - destruct (isCancellationRequested (get_token (token sa) w)) eqn:Hc.
    + by rewrite (after_addModule_cancelled w a sa).
    + by rewrite (after_addModule_live w a sa).
  - destruct (isCancellationRequested (get_token (token sa) w)) eqn:Hc.
    + by rewrite start_resume_cancelled.
    + rewrite start_resume_live by done.
      change (get_token tid (set_objects ?n ?x)) with (get_token tid x).
      by rewrite get_token_upd, get_token_set_ne.
  - destruct (pc sa); try done.
    unfold after_start. by destruct (cancelled a w).
  - by destruct (timers w) as [|[sid0 cb] ts].
Qed.

(** C9.  Take two sessions of a reachable world that were given different
    tokens.  Each holds objects of its own making: its emitter, and as far
    as its setup got, its stream, its audio context, its source, its worklet
    node and its connection, all six when it records; no object and no track
    is held by both, and none is held twice.  Cancelling the token of the
    one changes neither the record of the other (its emitter, its stream,
    its objects, its progress, its log, what its subscribers received), nor
    the other's token, nor the timers.  No event that runs code of the one
    changes the record, the token or the queued callbacks of the other.  And
    a further call of [transcribe] leaves both as they are and starts a
    session of its own, with a new emitter that neither of the two holds. *)
Theorem sessions_independent evs a b sa sb :
  session_of a (run evs) = Some sa -> session_of b (run evs) = Some sb ->
  a <> b -> token sa <> token sb ->
  let w := run evs in
  (holds_own_objects sa /\ holds_own_objects sb
   /\ NoDup (handles sa ++ handles sb)
   /\ (forall x, x ∈ tracks_of sa -> x ∉ tracks_of sb))
  /\ (session_of b (step w (Cancel (token sa))) = Some sb
      /\ get_token (token sb) (step w (Cancel (token sa)))
         = get_token (token sb) w
      /\ timers (step w (Cancel (token sa))) = timers w)
  /\ (forall e, actor w e = Some a ->
        session_of b (step w e) = Some sb
        /\ get_token (token sb) (step w e) = get_token (token sb) w
        /\ own b (timers (step w e)) = own b (timers w))
  /\ (forall tid throws,
        (transcribe tid throws w).1 = Normal (length (sessions w))
        /\ session_of b (transcribe tid throws w).2 = Some sb
        /\ session_of (length (sessions w)) (transcribe tid throws w).2
           = Some (callback_begin throws (session_new tid (objects w)))
        /\ handles (callback_begin throws (session_new tid (objects w)))
           = [objects w]
        /\ (objects w ∉ handles sa ++ handles sb)
        /\ b <> length (sessions w)).
Proof.
  intros Ha Hb Hab Htok w. unfold session_of in *. fold w in Ha, Hb.
  assert (Hw : wf w) by apply wf_run.
  assert (Hh : heap_ok w) by apply heap_ok_run.
  assert (Hdisj : forall id, id ∈ handles sa -> id ∈ handles sb -> False).
  { intros id Hia Hib. apply Hab. by eapply (heap_owner w Hh a b sa sb id). }
  split; [|repeat apply conj].
  - split; [by eapply holds_own_objects_reachable|].
    split; [by eapply holds_own_objects_reachable|]. split.
    + apply NoDup_app. split; [by eapply (heap_nodup w Hh)|].
      split; [exact Hdisj|by eapply (heap_nodup w Hh)].
    + intros x Hxa Hxb. apply (Hdisj x.1); by apply tracks_of_handles.
  - cbn [step]. unfold cancel.
    destruct (isCancellationRequested (get_token (token sa) w)); [done|].
    rewrite sessions_invokes. simpl. rewrite Hb. simpl.
    rewrite (wf_foreign w Hw b (token sa)); [done|].
    intros s Hs. congruence.
  - cbn [step]. unfold cancel.
    destruct (isCancellationRequested (get_token (token sa) w)); [done|].
    by rewrite get_token_invokes, get_token_set_ne.
  - cbn [step]. unfold cancel.
    destruct (isCancellationRequested (get_token (token sa) w)); [done|].
    by rewrite timers_invokes.
  - intros e He. pose proof (step_local w e a He) as Hloc. repeat apply conj.
    + rewrite (loc_sessions _ _ _ Hloc); done.
    + eapply step_token_other; eauto.
    + apply (loc_timers _ _ _ Hloc). done.
  - intros tid throws.
    pose proof (step_local w (Transcribe tid throws) _ eq_refl) as Hloc.
    assert (b <> length (sessions w)).
    { apply lookup_lt_Some in Hb. lia. }
    repeat apply conj; try done.
    + by rewrite transcribe_eq.
    + by rewrite (loc_sessions _ _ _ Hloc).
    + apply transcribe_session.
    + by destruct throws.
    + intros Hin. apply elem_of_app in Hin as [Hin|Hin].
      * pose proof (heap_bound w Hh a sa _ Ha Hin). lia.
      * pose proof (heap_bound w Hh b sb _ Hb Hin). lia.
Qed.

(** Two sessions on tokens 0 and 1, both given a stream with one track
    labelled 1, both recording when token 0 is cancelled. *)
Lemma sessions_independent_witness :
  let w := run [Transcribe 0 false; Transcribe 1 false; Subscribe 1 7;
                MicrophoneResolved 0 [1]; MicrophoneResolved 1 [1];
                ModuleLoaded 0; ModuleLoaded 1;
                ConnectionOpened 1; ConnectionOpened 0;
                StartReturned 0; StartReturned 1] in
  exists s0 s1,
    session_of 0 w = Some s0 /\ session_of 1 w = Some s1
    /\ pc s0 = Recording /\ pc s1 = Recording
    /\ kinds s0 = all_resources /\ kinds s1 = all_resources
    /\ handles s0 = [0; 2; 3; 4; 8; 11] /\ handles s1 = [1; 5; 6; 7; 9; 10]
    /\ tracks_of s0 = [(2, 1)] /\ tracks_of s1 = [(5, 1)]
    /\ NoDup (handles s0 ++ handles s1)
    /\ session_of 1 (step w (Cancel 0)) = Some s1.
Proof.
  intros w.
  edestruct (sessions_independent
               [Transcribe 0 false; Transcribe 1 false; Subscribe 1 7;
                MicrophoneResolved 0 [1]; MicrophoneResolved 1 [1];
                ModuleLoaded 0; ModuleLoaded 1;
                ConnectionOpened 1; ConnectionOpened 0;
                StartReturned 0; StartReturned 1] 0 1)
    as ((H0 & H1 & Hnd & _) & (Hb & _) & _);
    [vm_compute; reflexivity|vm_compute; reflexivity|lia|vm_compute; lia|].
  eexists _, _. split; [vm_compute; reflexivity|].
  split; [vm_compute; reflexivity|].
  split; [reflexivity|]. split; [reflexivity|].
  split; [by apply H0|]. split; [by apply H1|].
  split; [reflexivity|]. split; [reflexivity|].
  split; [reflexivity|]. split; [reflexivity|].
  split; [exact Hnd|exact Hb].
Defined.

(** ** The caller of [transcribe] *)

(** The body of the callback throws exactly when [getUserMedia] does. *)
Lemma callback_body_throws throws s :
  (callback_body throws s).1 = Throw <-> throws = true.
Proof. by destruct throws. Qed.

(** [withProgress] passes on what its callback throws in place. *)
Lemma withProgress_throws sid callback w s :
  sessions w !! sid = Some s -> (callback s).1 = Throw ->
  (withProgress sid callback w).1 = Throw.
Proof.
  intros Hs Hthrow. unfold withProgress. rewrite Hs.
  by destruct (callback s) as [[[]|] s'].
Qed.

(** The call of an async function returns. *)
Lemma async_returns body s : (async body s).1 = Normal tt.
Proof. unfold async. by destruct (body s) as [[p|] s']. Qed.

(** C10.  In every reachable world and for every token, [transcribe]
    returns the event of a new session and does not throw, although the body
    of the callback does throw when the microphone request throws in place:
    the callback is an async function, whose call turns the exception into a
    rejected promise and returns.  When [transcribe] returns, the callback
    has run up to its first suspension point inside the progress service: the
    first progress report is made and the microphone is requested.  A failure
    of the setup only ever shows in the promise of that callback: whatever
    happens later, the event that was returned is that of the same session,
    and a callback that was rejected at once stays rejected. *)
Theorem transcribe_returns evs tid throws evs' :
  let w := run evs in
  let sid := length (sessions w) in
  let s0 := session_new tid (objects w) in
  ((callback_body throws s0).1 = Throw <-> throws = true)
  /\ (async (callback_body throws) s0).1 = Normal tt
  /\ (doTranscribe sid throws
        (onCancellationRequested tid (sid, DisposeEmitter)
           (mkWorld (tokens w) (sessions w ++ [s0]) (timers w)
                    (S (objects w))))).1 = Normal tt
  /\ (transcribe tid throws w).1 = Normal sid
  /\ (exists s,
        session_of sid (transcribe tid throws w).2 = Some s
        /\ log s = setup_microphone
        /\ pc s = (if throws then Rejected AcquiringMicrophone
                   else AwaitMicrophone))
  /\ (exists s',
        session_of sid (run (evs ++ Transcribe tid throws :: evs')) = Some s'
        /\ token s' = tid
        /\ (throws = true -> pc s' = Rejected AcquiringMicrophone)).
Proof.
  intros w sid s0. repeat apply conj.
  - apply callback_body_throws.
  - apply callback_body_throws.
  - apply async_returns.
  - pose proof (transcribe_eq tid throws w) as H. unfold transcribe in H.
    fold sid s0 in H.
    by destruct (doTranscribe sid throws _) as [[[]|] w'].
  - by rewrite transcribe_eq.
  - exists (callback_begin throws s0).
    split; [apply transcribe_session|]. by destruct throws.
  - rewrite run_app.
    change (run_from (run evs) (Transcribe tid throws :: evs'))
      with (run_from (transcribe tid throws w).2 evs').
    assert (Hw1 : wf (transcribe tid throws w).2) by apply wf_transcribe, wf_run.
    pose proof (transcribe_session tid throws w) as Hs1. fold sid s0 in Hs1.
    destruct (session_run
                (fun v s => throws = true -> pc s = Rejected AcquiringMicrophone)
                (fun ph v s v' s' Hph HP Hstep Hthr =>
                   rejected_at_stable AcquiringMicrophone ph v s v' s'
                     Hph (HP Hthr) Hstep)
                evs' _ sid _ Hw1 Hs1)
      as (s' & Hs' & Htok & HP).
    { intros ->. reflexivity. }
    exists s'. repeat split; [done| |done].
    rewrite Htok. by destruct throws.
Qed.

(** * Further properties of the service *)

(** ** What a cancellation does at once *)

Lemma cancel_session_own evs sid s :
  sessions (run evs) !! sid = Some s ->
  isCancellationRequested (get_token (token s) (run evs)) = false ->
  sessions (cancel (token s) (run evs)) !! sid
  = Some (foldl (fun s cb => run_callback cb s) s
            (own sid (listeners (get_token (token s) (run evs))))).
Proof.
  intros Hs Hc. unfold cancel. rewrite Hc, sessions_invokes. simpl.
  by rewrite Hs.
Qed.

(** X1.  Cancelling the token of a session that is not yet cancelled takes
    effect inside the call of [cancel], whatever the session is waiting for
    and also when its setup was rejected: the emitter is disposed; if the
    audio context exists, the teardown listener runs its pass over the tracks
    of the stream; if the start command was posted, the worklet is sent the
    stop command and the node is disconnected; and a recording session is
    stopped.  Nothing else is added to the log. *)
Theorem cancel_releases_at_once evs sid s :
  session_of sid (run evs) = Some s -> cancelled sid (run evs) = false ->
  exists s',
    session_of sid (step (run evs) (Cancel (token s))) = Some s'
    /\ cancelled sid (step (run evs) (Cancel (token s))) = true
    /\ disposed (onDidTranscribe s') = true
    /\ log s'
       = log s
         ++ (if bool_decide (NewAudioContext ∈ log s)
             then teardown_block (microphoneDevice s) else [])
         ++ (if bool_decide (PostStart ∈ log s) then stop_block else [])
    /\ pc s' = (if decide (pc s = Recording) then Stopped else pc s).
Proof.
  intros Hs Hc. unfold session_of, cancelled in *. rewrite Hs in Hc.
  destruct (wf_phase _ (wf_run evs) sid s Hs) as [ph Hph].
  cbn [step].
  rewrite (cancel_session_own evs sid s Hs Hc), token_run_callbacks, cancel_flag.
  eexists. split; [reflexivity|]. split; [reflexivity|].
  rewrite Hc in Hph. phase_cases Hph; rewrite Hph_listeners; simpl.
  all: unfold complete_recordingDone; simpl.
  all: destruct (pc s) as [| | | | | | |[]] eqn:Hpc; try done; simpl.
  all: rewrite !Hph_log; repeat apply conj; try done.
  all: unfold setup_recording, setup_node, setup_graph, setup_microphone,
         teardown_block, stop_block; simpl; rewrite <- ?app_assoc; try done.
Qed.

(** A session is cancelled between the end of [start] and the resumption of
    its callback: its three listeners run, and the callback is still to
    resume. *)
Lemma cancel_releases_at_once_witness :
  exists s',
    session_of 0 (step (run [Transcribe 0 false; MicrophoneResolved 0 [1; 2];
                             ModuleLoaded 0; ConnectionOpened 0]) (Cancel 0))
    = Some s'
    /\ pc s' = StartFulfilled
    /\ log s' = setup_node ++ [PostStart] ++ teardown_block [1; 2] ++ stop_block.
Proof.
  edestruct (cancel_releases_at_once
               [Transcribe 0 false; MicrophoneResolved 0 [1; 2];
                ModuleLoaded 0; ConnectionOpened 0] 0)
    as (s' & Hs' & _ & _ & Hlog & Hpc);
    [vm_compute; reflexivity|vm_compute; reflexivity|].
  exists s'. split; [exact Hs'|]. split; [exact Hpc|exact Hlog].
Defined.

(** X2.  When the setup of a session was rejected, its token still carries
    the listeners registered before the failure.  Cancelling the token then
    leaves the promise rejected; after a rejection at the microphone there is
    nothing to release and the log stays as it is, and after a rejection at
    the module or at the connection the teardown pass runs, and only it: the
    listener of [start] was never registered, so no stop command is posted. *)
Theorem cancel_after_rejection evs sid s stage :
  session_of sid (run evs) = Some s -> pc s = Rejected stage ->
  cancelled sid (run evs) = false ->
  exists s',
    session_of sid (step (run evs) (Cancel (token s))) = Some s'
    /\ pc s' = Rejected stage
    /\ log s'
       = log s ++ match stage with
                  | AcquiringMicrophone => []
                  | BuildingGraph | ConnectingSideChannel =>
                      teardown_block (microphoneDevice s)
                  end.
Proof.
  intros Hs Hpc Hc. unfold session_of, cancelled in *. rewrite Hs in Hc.
  destruct (wf_phase _ (wf_run evs) sid s Hs) as [ph Hph].
  cbn [step]. rewrite (cancel_session_own evs sid s Hs Hc).
  eexists. split; [reflexivity|].
  rewrite Hc in Hph. phase_cases Hph; rewrite Hph_listeners; simpl.
  all: unfold complete_recordingDone; simpl.
  all: rewrite Hpc in *; destruct stage; try done; simpl.
  all: split; [done|]; unfold teardown_block; rewrite <- ?app_assoc;
    by rewrite ?app_nil_r.
Qed.

(** The module fails to load, then the token is cancelled. *)
Lemma cancel_after_rejection_witness :
  exists s',
    session_of 0 (step (run [Transcribe 0 false; MicrophoneResolved 0 [1; 2];
                             ModuleRejected 0]) (Cancel 0)) = Some s'
    /\ pc s' = Rejected BuildingGraph
    /\ log s' = setup_graph ++ teardown_block [1; 2].
Proof.
  edestruct (cancel_after_rejection
               [Transcribe 0 false; MicrophoneResolved 0 [1; 2];
                ModuleRejected 0] 0)
    with (stage := BuildingGraph)
    as (s' & Hs' & Hpc & Hlog);
    [vm_compute; reflexivity|vm_compute; reflexivity|vm_compute; reflexivity|].
  exists s'. split; [exact Hs'|]. split; [exact Hpc|exact Hlog].
Defined.

(** ** How a session ends *)

(** X3.  The callback of [doTranscribe] never returns on its own.  In every
    reachable world a session whose promise is fulfilled has a cancelled
    token, and a session with a cancelled token is not recording: the
    recording lasts exactly until it is cancelled. *)
Theorem stopped_only_by_cancellation evs sid s :
  session_of sid (run evs) = Some s ->
  (pc s = Stopped -> cancelled sid (run evs) = true)
  /\ (cancelled sid (run evs) = true -> pc s <> Recording)
  /\ (pc s = Recording ->
      log s = setup_recording /\ disposed (onDidTranscribe s) = false).
Proof.
  intros Hs. destruct (reachable_phase evs sid s Hs) as [ph Hph].
  unfold cancelled. unfold session_of in Hs. rewrite Hs.
  unfold phase_of in Hph.
  repeat apply conj; intros H; phase_cases Hph; rewrite ?H in *; try done.
  all: intros Hrec; by rewrite Hrec in Hph_pc.
Qed.

(** A session that was cancelled while recording. *)
Lemma stopped_only_by_cancellation_witness :
  cancelled 0 (run [Transcribe 0 false; MicrophoneResolved 0 [1; 2];
                    ModuleLoaded 0; ConnectionOpened 0; StartReturned 0;
                    Cancel 0]) = true.
Proof.
  edestruct (stopped_only_by_cancellation
               [Transcribe 0 false; MicrophoneResolved 0 [1; 2];
                ModuleLoaded 0; ConnectionOpened 0; StartReturned 0;
                Cancel 0] 0)
    as (H & _); [vm_compute; reflexivity|].
  apply H. vm_compute. reflexivity.
Defined.

(** A fulfilled promise stays fulfilled, and the setup does not go on. *)
Lemma stopped_with_stable l ph v s v' s' :
  in_phase ph (v_cancelled v) (v_listeners v) (v_timers v) s ->
  stopped_with l v s -> session_step v s v' s' -> stopped_with l v' s'.
Proof.
  intros Hph (Hpc & Hl) Hstep. unfold stopped_with, setups in *.
  inversion Hstep; subst; clear Hstep; simpl in *; try congruence; try done.
  - destruct (onmessage s); [|done]. unfold port_onmessage.
    case_decide; [|done]. by destruct data.
  - phase_cases Hph; by rewrite Hpc in *.
  - phase_cases Hph; rewrite Hpc in *; try done; simpl.
    by rewrite !List.filter_app, !app_nil_r.
Qed.

(** X4.  A session is not restartable: once the promise of its callback is
    fulfilled it stays fulfilled whatever happens, and no step of the setup
    is performed any more. *)
Theorem stopped_is_final evs sid s evs' :
  session_of sid (run evs) = Some s -> pc s = Stopped ->
  exists s',
    session_of sid (run (evs ++ evs')) = Some s'
    /\ pc s' = Stopped
    /\ setups (log s') = setups (log s).
Proof.
  intros Hs Hpc. unfold session_of in *. rewrite run_app.
  destruct (session_run (stopped_with (setups (log s)))
              (stopped_with_stable (setups (log s)))
              evs' (run evs) sid s (wf_run evs) Hs)
    as (s' & Hs' & _ & (Hpc' & Hl)); [by split|].
  by exists s'.
Qed.

(** Cancelled while the connection opens; the connection, a queued callback
    and late events follow. *)
Lemma stopped_is_final_witness :
  exists s',
    session_of 0 (run ([Transcribe 0 false; MicrophoneResolved 0 [1; 2];
                        Cancel 0; ModuleLoaded 0]
                       ++ [ModuleLoaded 0; ConnectionOpened 0; StartReturned 0;
                           MicrophoneResolved 0 [3]; Timeout])) = Some s'
    /\ pc s' = Stopped.
Proof.
  edestruct (stopped_is_final
               [Transcribe 0 false; MicrophoneResolved 0 [1; 2];
                Cancel 0; ModuleLoaded 0] 0)
    as (s' & Hs' & Hpc & _); [vm_compute; reflexivity|vm_compute; reflexivity|].
  exists s'. split; [exact Hs'|exact Hpc].
Defined.

(** ** The order of the setup *)

(** X5.  The setup of a session runs in program order and never twice.  What
    the log of a session holds besides releases always begins with the first
    progress report and the microphone request, and is a beginning of the one
    sequence: report, microphone, audio context, source, module, worklet
    node, raw connection, start command, connection of the source, recording
    report.  So the microphone is requested exactly once, the context, the
    node and the connection are created at most once, and the source is
    connected only to a worklet that was sent the start command. *)
Theorem setup_in_program_order evs sid s :
  session_of sid (run evs) = Some s ->
  setup_microphone `prefix_of` setups (log s)
  /\ setups (log s) `prefix_of` setup_recording
  /\ occurrences GetUserMedia (log s) = 1
  /\ occurrences NewAudioContext (log s) <= 1
  /\ occurrences NewWorkletNode (log s) <= 1
  /\ occurrences CreateRawConnection (log s) <= 1
  /\ (SourceConnect ∈ log s -> PostStart ∈ log s).
Proof.
  intros Hs. destruct (reachable_phase evs sid s Hs) as [ph Hph].
  destruct Hph as [_ _ _ _ _ _ _ Hlog _ _]. rewrite Hlog.
  unfold setups.
  destruct ph; filter_log; rewrite ?app_nil_r.
  all: repeat apply conj; try lia; try (by eexists).
  all: intros Hin; log_mem.
Qed.

(** A session that records. *)
Lemma setup_in_program_order_witness :
  exists s,
    session_of 0 (run [Transcribe 0 false; MicrophoneResolved 0 [1; 2];
                       ModuleLoaded 0; ConnectionOpened 0; StartReturned 0])
    = Some s
    /\ occurrences GetUserMedia (log s) = 1.
Proof.
  edestruct (setup_in_program_order
               [Transcribe 0 false; MicrophoneResolved 0 [1; 2];
                ModuleLoaded 0; ConnectionOpened 0; StartReturned 0] 0)
    as (_ & _ & H & _); [vm_compute; reflexivity|].
  eexists. split; [vm_compute; reflexivity|exact H].
Defined.

(** ** The relay over a whole schedule *)



(** ** One token for several sessions *)

(** X7.  A token may be handed to any number of calls of [transcribe].
    After it is cancelled, every session that was given it is over or about
    to be: its flag is set, it does not record, its emitter is disposed or
    the disposal is queued (the latter when the token was cancelled before
    the call), and if its audio context exists the teardown pass has run. *)
Theorem cancel_reaches_every_session evs tid sid s :
  let w := step (run evs) (Cancel tid) in
  session_of sid w = Some s -> token s = tid ->
  cancelled sid w = true
  /\ pc s <> Recording
  /\ (disposed (onDidTranscribe s) = true
      \/ own sid (timers w) = [DisposeEmitter])
  /\ (NewAudioContext ∈ log s ->
      teardowns (log s) = teardown_actions (microphoneDevice s)).
Proof.
  intros w Hs Htok. unfold session_of, cancelled in *. rewrite Hs.
  assert (Hw : wf w) by apply wf_step, wf_run.
  assert (Hc : isCancellationRequested (get_token (token s) w) = true).
  { rewrite Htok. apply cancel_flag. }
  destruct (wf_phase w Hw sid s Hs) as [ph Hph]. rewrite Hc in Hph.
  split; [done|].
  phase_cases Hph; rewrite ?Hph_log.
  all: repeat apply conj; auto.
  all: try (intros Hrec; by rewrite Hrec in Hph_pc).
  all: try (intros Hin; exfalso; log_mem).
  all: intros _; filter_log; by rewrite ?app_nil_r.
Qed.

(** Two sessions on one token, one waiting for the module and one recording,
    and the token is cancelled. *)
Lemma cancel_reaches_every_session_witness :
  exists s,
    session_of 1 (step (run [Transcribe 0 false; Transcribe 0 false;
                             MicrophoneResolved 0 [1]; MicrophoneResolved 1 [2];
                             ModuleLoaded 1; ConnectionOpened 1;
                             StartReturned 1]) (Cancel 0))
    = Some s
    /\ pc s <> Recording.
Proof.
  eexists. split; [vm_compute; reflexivity|].
  edestruct (cancel_reaches_every_session
               [Transcribe 0 false; Transcribe 0 false;
                MicrophoneResolved 0 [1]; MicrophoneResolved 1 [2];
                ModuleLoaded 1; ConnectionOpened 1; StartReturned 1] 0 1)
    as (_ & H & _); [vm_compute; reflexivity|vm_compute; reflexivity|].
  exact H.
Defined.

(** ** Between the end of [start] and the resumption of the callback *)

(** Nothing is left to run for a session that is over. *)
Lemma at_rest_stable p l ph v s v' s' :
  is_final p = true ->
  in_phase ph (v_cancelled v) (v_listeners v) (v_timers v) s ->
  at_rest p l v s -> session_step v s v' s' -> at_rest p l v' s'.
Proof.
  intros Hp _ (Hc & Ht & Hpc & Hl) Hstep. unfold at_rest.
  inversion Hstep; subst; clear Hstep; simpl in *; try done;
    try (match goal with H : pc _ = _ |- _ => rewrite H in Hp end;
         discriminate Hp).
  destruct (onmessage s); [|done]. unfold port_onmessage.
  case_decide; [|done]. by destruct data.
Qed.

(** X8.  A session whose [start] has returned is cancelled before its
    callback resumes.  The three listeners run inside the call of [cancel]:
    the worklet, which was sent the start command, is sent the stop command
    after the teardown pass.  When the callback then resumes, line 143 ends
    the session, and whatever happens afterwards its log stays as the
    listeners left it: the source is never connected and recording is never
    reported. *)
Theorem cancel_after_start_returned evs sid s evs' :
  session_of sid (run evs) = Some s -> pc s = StartFulfilled ->
  cancelled sid (run evs) = false ->
  log s = setup_node ++ [PostStart]
  /\ exists s',
       session_of sid
         (run (evs ++ Cancel (token s) :: StartReturned sid :: evs'))
       = Some s'
       /\ pc s' = Stopped
       /\ log s'
          = log s ++ teardown_block (microphoneDevice s) ++ stop_block
       /\ (SourceConnect ∉ log s').
Proof.
  intros Hs Hpc Hc. unfold session_of, cancelled in *. rewrite Hs in Hc.
  destruct (wf_phase _ (wf_run evs) sid s Hs) as [ph Hph].
  rewrite Hc in Hph.
  assert (Hlog : log s = setup_node ++ [PostStart]
                 /\ own sid (timers (run evs)) = []).
  { phase_cases Hph; by rewrite Hpc in *. }
  destruct Hlog as [Hlog Hts]. split; [exact Hlog|].
  rewrite run_app.
  change (run_from (run evs) (Cancel (token s) :: StartReturned sid :: evs'))
    with (run_from (step (step (run evs) (Cancel (token s)))
                         (StartReturned sid)) evs').
  set (w2 := step (step (run evs) (Cancel (token s))) (StartReturned sid)).
  assert (Hw2 : wf w2) by (unfold w2; apply wf_step, wf_step, wf_run).
  set (s1 := foldl (fun s cb => run_callback cb s) s
               (own sid (listeners (get_token (token s) (run evs))))).
  assert (Hs1 : sessions (cancel (token s) (run evs)) !! sid = Some s1)
    by (by apply cancel_session_own).
  assert (Htok1 : token s1 = token s) by apply token_run_callbacks.
  assert (H1 : pc s1 = StartFulfilled
               /\ log s1
                  = log s ++ teardown_block (microphoneDevice s) ++ stop_block).
  { unfold s1. phase_cases Hph; rewrite Hpc in *; try done.
    rewrite Hph_listeners. simpl. unfold complete_recordingDone. simpl.
    rewrite ?Hpc. simpl.
    repeat split; try done; unfold teardown_block, stop_block; by list_eq. }
  destruct H1 as (Hpc1 & Hlog1).
  assert (Hw2eq : w2 = upd sid (goto Stopped) (cancel (token s) (run evs))).
  { unfold w2. cbn [step]. rewrite Hs1, Hpc1.
    apply (after_start_cancelled _ sid s1 Hs1).
    rewrite Htok1. apply cancel_flag. }
  assert (Hs2 : sessions w2 !! sid = Some (goto Stopped s1))
    by (by rewrite Hw2eq, sessions_upd_eq, Hs1).
  destruct (session_run (at_rest Stopped (log s1))
              (fun ph v s v' s' =>
                 at_rest_stable Stopped (log s1) ph v s v' s' eq_refl)
              evs' w2 sid _ Hw2 Hs2)
    as (s' & Hs' & _ & (_ & _ & Hpc' & Hlog')).
  { unfold at_rest, view. simpl. rewrite Htok1, Hw2eq, get_token_upd.
    repeat split; [apply cancel_flag|].
    change (timers (upd sid (goto Stopped) ?x)) with (timers x).
    unfold cancel. rewrite Hc. by rewrite timers_invokes. }
  exists s'. repeat split; try done; try congruence.
  rewrite Hlog', Hlog1, Hlog. intros Hin. log_mem.
Qed.

(** The connection is opened, the token is cancelled, the callback resumes,
    and late events follow. *)
Lemma cancel_after_start_returned_witness :
  exists s',
    session_of 0 (run ([Transcribe 0 false; MicrophoneResolved 0 [1; 2];
                        ModuleLoaded 0; ConnectionOpened 0]
                       ++ Cancel 0 :: StartReturned 0
                       :: [StartReturned 0; PortMessage 0 (DString "late");
                           Timeout])) = Some s'
    /\ pc s' = Stopped
    /\ log s' = setup_node ++ [PostStart] ++ teardown_block [1; 2] ++ stop_block.
Proof.
  edestruct (cancel_after_start_returned
               [Transcribe 0 false; MicrophoneResolved 0 [1; 2];
                ModuleLoaded 0; ConnectionOpened 0] 0)
    with (evs' := [StartReturned 0; PortMessage 0 (DString "late"); Timeout])
    as (_ & s' & Hs' & Hpc' & Hlog' & _);
    [vm_compute; reflexivity|vm_compute; reflexivity|vm_compute; reflexivity|].
  exists s'. split; [exact Hs'|]. split; [exact Hpc'|exact Hlog'].
Defined.

(** X9.  A session whose [start] has thrown is cancelled before its callback
    resumes.  Only the listeners registered before [start] are on the token:
    the emitter is disposed and the teardown pass runs.  When the callback
    then resumes, its promise is rejected all the same: the cancellation does
    not hide the failure.  Whatever happens afterwards, the log stays as the
    teardown left it: no start and no stop command is ever posted. *)
Theorem cancel_while_start_rejected evs sid s evs' :
  session_of sid (run evs) = Some s -> pc s = StartRejected ->
  cancelled sid (run evs) = false ->
  exists s',
    session_of sid (run (evs ++ Cancel (token s) :: StartReturned sid :: evs'))
    = Some s'
    /\ pc s' = Rejected ConnectingSideChannel
    /\ log s' = log s ++ teardown_block (microphoneDevice s)
    /\ (PostStart ∉ log s') /\ (PostStop ∉ log s').
Proof.
  intros Hs Hpc Hc. unfold session_of, cancelled in *. rewrite Hs in Hc.
  destruct (wf_phase _ (wf_run evs) sid s Hs) as [ph Hph].
  rewrite Hc in Hph.
  rewrite run_app.
  change (run_from (run evs) (Cancel (token s) :: StartReturned sid :: evs'))
    with (run_from (step (step (run evs) (Cancel (token s)))
                         (StartReturned sid)) evs').
  set (w2 := step (step (run evs) (Cancel (token s))) (StartReturned sid)).
  assert (Hw2 : wf w2) by (unfold w2; apply wf_step, wf_step, wf_run).
  set (s1 := foldl (fun s cb => run_callback cb s) s
               (own sid (listeners (get_token (token s) (run evs))))).
  assert (Hs1 : sessions (cancel (token s) (run evs)) !! sid = Some s1)
    by (by apply cancel_session_own).
  assert (Htok1 : token s1 = token s) by apply token_run_callbacks.
  assert (H1 : pc s1 = StartRejected
               /\ log s1 = log s ++ teardown_block (microphoneDevice s)
               /\ log s = setup_node).
  { unfold s1. phase_cases Hph; rewrite Hpc in *; try done.
    rewrite Hph_listeners. simpl. unfold complete_recordingDone. simpl.
    rewrite ?Hpc. simpl.
    repeat split; try done; unfold teardown_block; by list_eq. }
  destruct H1 as (Hpc1 & Hlog1 & Hlog).
  assert (Hw2eq : w2 = upd sid (goto (Rejected ConnectingSideChannel))
                         (cancel (token s) (run evs))).
  { unfold w2. cbn [step]. by rewrite Hs1, Hpc1. }
  assert (Hs2 : sessions w2 !! sid
                = Some (goto (Rejected ConnectingSideChannel) s1))
    by (by rewrite Hw2eq, sessions_upd_eq, Hs1).
  destruct (session_run (at_rest (Rejected ConnectingSideChannel) (log s1))
              (fun ph v s v' s' =>
                 at_rest_stable (Rejected ConnectingSideChannel) (log s1)
                   ph v s v' s' eq_refl)
              evs' w2 sid _ Hw2 Hs2)
    as (s' & Hs' & _ & (_ & _ & Hpc' & Hlog')).
  { assert (Hts : own sid (timers (run evs)) = [])
      by (phase_cases Hph; by rewrite Hpc in * ).
    unfold at_rest, view. simpl. rewrite Htok1, Hw2eq, get_token_upd.
    repeat split; [apply cancel_flag|].
    change (timers (upd sid ?f ?x)) with (timers x).
    unfold cancel. rewrite Hc. by rewrite timers_invokes. }
  exists s'. repeat split; try done; try congruence.
  - rewrite Hlog', Hlog1, Hlog. intros Hin. log_mem.
  - rewrite Hlog', Hlog1, Hlog. intros Hin. log_mem.
Qed.

(** The connection fails, the token is cancelled, the callback resumes, and
    late events follow. *)
Lemma cancel_while_start_rejected_witness :
  exists s',
    session_of 0 (run ([Transcribe 0 false; MicrophoneResolved 0 [1; 2];
                        ModuleLoaded 0; ConnectionRejected 0]
                       ++ Cancel 0 :: StartReturned 0
                       :: [ConnectionOpened 0; StartReturned 0; Timeout]))
    = Some s'
    /\ pc s' = Rejected ConnectingSideChannel
    /\ log s' = setup_node ++ teardown_block [1; 2].
Proof.
  edestruct (cancel_while_start_rejected
               [Transcribe 0 false; MicrophoneResolved 0 [1; 2];
                ModuleLoaded 0; ConnectionRejected 0] 0)
    with (evs' := [ConnectionOpened 0; StartReturned 0; Timeout])
    as (s' & Hs' & Hpc' & Hlog' & _);
    [vm_compute; reflexivity|vm_compute; reflexivity|vm_compute; reflexivity|].
  exists s'. split; [exact Hs'|]. split; [exact Hpc'|exact Hlog'].
Defined.

(** A session starts to record only in the promise job of line 143. *)
Lemma session_step_recording v s v' s' :
  session_step v s v' s' -> pc s <> Recording -> pc s' = Recording ->
  pc s = StartFulfilled /\ v_cancelled v = false /\ s' = begin_recording s.
Proof.
  intros Hstep Hpc Hpc'.
  inversion Hstep; subst; clear Hstep; simpl in *; try done.
  - destruct (onmessage s); [|done]. unfold port_onmessage in Hpc'.
    case_decide; [|done]. by destruct data.
  - by rewrite pc_run_callbacks in Hpc'.
  - by rewrite pc_run_callback in Hpc'.
Qed.

(** X10.  Recording begins in one way only.  Whatever event makes a session
    record, the session was waiting for its callback to resume after [start]
    had returned, and its token was not cancelled when line 143 read the
    flag; the step connected the source and reported the recording, and the
    session has then performed the whole setup, once and in order. *)
Theorem recording_begins_at_line_143 evs e sid s s' :
  session_of sid (run evs) = Some s ->
  session_of sid (step (run evs) e) = Some s' ->
  pc s <> Recording -> pc s' = Recording ->
  pc s = StartFulfilled
  /\ cancelled sid (run evs) = false
  /\ log s = setup_node ++ [PostStart]
  /\ log s'
     = log s ++ [SourceConnect; ProgressReport "Recording from microphone..."]
  /\ log s' = setup_recording.
Proof.
  intros Hs Hs' Hpc Hpc'. unfold session_of, cancelled in *. rewrite Hs.
  destruct (step_session (run evs) e sid s (wf_run evs) Hs)
    as (s1 & Hs1 & _ & _ & Hstep).
  assert (s1 = s') as -> by congruence.
  destruct (session_step_recording _ _ _ _ Hstep Hpc Hpc') as (Hpc0 & Hc & ->).
  simpl in Hc.
  destruct (wf_phase _ (wf_run evs) sid s Hs) as [ph Hph].
  rewrite Hc in Hph.
  assert (Hlog : log s = setup_node ++ [PostStart]).
  { phase_cases Hph; by rewrite Hpc0 in *. }
  assert (Hlog' : log (begin_recording s)
                  = log s ++ [SourceConnect;
                              ProgressReport "Recording from microphone..."]).
  { unfold begin_recording. simpl. destruct (recordingDone s); by list_eq. }
  repeat split; try done.
  rewrite Hlog', Hlog. unfold setup_recording. by list_eq.
Qed.

(** The callback of a session resumes with the flag clear. *)
Lemma recording_begins_at_line_143_witness :
  cancelled 0 (run [Transcribe 0 false; MicrophoneResolved 0 [1; 2];
                    ModuleLoaded 0; ConnectionOpened 0]) = false.
Proof.
  edestruct (recording_begins_at_line_143
               [Transcribe 0 false; MicrophoneResolved 0 [1; 2];
                ModuleLoaded 0; ConnectionOpened 0] (StartReturned 0) 0)
    as (_ & H & _);
    [vm_compute; reflexivity|vm_compute; reflexivity|vm_compute; congruence
    |vm_compute; reflexivity|exact H].
Defined.
